(** * Blog enhancement layer (app.js): a shallow embedding and its properties

    The script decorates a docsify page: a theme manager, a reading-progress
    bar, copy-link buttons on headings, a generated table of contents and
    smooth scrolling for in-page anchors.  The embedding follows app.js class
    by class.  JavaScript strings are sequences of UTF-16 code units, numbers
    are IEEE 754 doubles, the document is a tree of nodes addressed by child
    positions. *)

From Stdlib Require Import List String Ascii NArith ZArith Bool Arith Lia Floats.
Import ListNotations.

Set Warnings "-register-all".

Local Open Scope bool_scope.
Local Open Scope N_scope.

(** ** JavaScript strings *)

(** A string is the list of its UTF-16 code units. *)
Definition jsstring := list N.

(** An ASCII literal of the script, as code units. *)
Definition lit (s : string) : jsstring :=
  map N_of_ascii (list_ascii_of_string s).

Fixpoint jseqb (a b : jsstring) : bool :=
  match a, b with
  | [], [] => true
  | x :: a', y :: b' => N.eqb x y && jseqb a' b'
  | _, _ => false
  end.

(** Truthiness of a string value: the empty string is falsy. *)
Definition truthy (s : jsstring) : bool :=
  match s with [] => false | _ :: _ => true end.

Fixpoint starts_with (prefix s : jsstring) : bool :=
  match prefix, s with
  | [], _ => true
  | x :: p', y :: s' => N.eqb x y && starts_with p' s'
  | _ :: _, [] => false
  end.

(** [\s] of a regular expression and the characters [trim] removes:
    WhiteSpace and LineTerminator of ECMAScript. *)
Definition is_space (c : N) : bool :=
  ((9 <=? c) && (c <=? 13)) || (c =? 32) || (c =? 160) || (c =? 5760)
  || ((8192 <=? c) && (c <=? 8202)) || (c =? 8232) || (c =? 8233)
  || (c =? 8239) || (c =? 8287) || (c =? 12288) || (c =? 65279).

Definition is_hyphen (c : N) : bool := c =? 45.

(** The complement of the class [[^a-z0-9 -]]: the code units that the first
    replacement of [generateId] keeps. *)
Definition kept (c : N) : bool :=
  ((97 <=? c) && (c <=? 122)) || ((48 <=? c) && (c <=? 57))
  || (c =? 32) || (c =? 45).

(** [String.prototype.toLowerCase], one code unit at a time.  A-Z go to a-z.
    Two code units outside ASCII have a lower case inside it: KELVIN SIGN
    (U+212A) becomes k, and LATIN CAPITAL LETTER I WITH DOT ABOVE (U+0130)
    becomes i followed by U+0307.  Every other code unit outside ASCII has a
    lower case outside ASCII as well; it is left in place here. *)
Definition lower_unit (c : N) : jsstring :=
  if (65 <=? c) && (c <=? 90) then [c + 32]
  else if c =? 8490 then [107]
  else if c =? 304 then [105; 775]
  else [c].

Definition toLowerCase (s : jsstring) : jsstring := flat_map lower_unit s.

(** [s.replace(/[C]+/g, r)] for a one-character replacement [r]: every
    maximal run of code units of class [p] becomes one [r].  A unit of the
    class followed by another one is dropped, the last of a run is replaced. *)
Fixpoint replace_runs (p : N -> bool) (r : N) (s : jsstring) : jsstring :=
  match s with
  | [] => []
  | c :: t =>
      if p c then
        match t with
        | c' :: _ => if p c' then replace_runs p r t else r :: replace_runs p r t
        | [] => [r]
        end
      else c :: replace_runs p r t
  end.

Fixpoint drop_while (p : N -> bool) (s : jsstring) : jsstring :=
  match s with
  | [] => []
  | c :: t => if p c then drop_while p t else s
  end.

(** [String.prototype.trim]. *)
Definition trim (s : jsstring) : jsstring :=
  rev (drop_while is_space (rev (drop_while is_space s))).

(** The icons of the script, as code units. *)
Definition sunIcon : jsstring := [9728; 65039].
Definition moonIcon : jsstring := [55356; 57113].
Definition linkIcon : jsstring := [55357; 56599].
Definition checkIcon : jsstring := [9989].

Local Open Scope nat_scope.

(** ** The document tree *)

Module Dom.

(** A node is a text node or an element.  An element carries its tag (the
    local name, in lower case), its [id] (empty when it has none), its class
    list, its other attributes and its children.  Styles and event
    listeners are not part of the tree: each listener of the script is a
    function of its own below. *)
Inductive node : Type :=
| Text (data : jsstring)
| Elem (tag id : jsstring) (classes : list jsstring)
       (attrs : list (jsstring * jsstring)) (children : list node).

(** A node is named by the child positions that lead to it from the root. *)
Definition path := list nat.

Definition nodeId (n : node) : jsstring :=
  match n with Elem _ i _ _ _ => i | Text _ => [] end.

Definition childNodes (n : node) : list node :=
  match n with Elem _ _ _ _ ks => ks | Text _ => [] end.

Fixpoint getAttribute (name : jsstring) (attrs : list (jsstring * jsstring))
  : option jsstring :=
  match attrs with
  | [] => None
  | (k, v) :: rest => if jseqb k name then Some v else getAttribute name rest
  end.

Fixpoint putAttribute (name value : jsstring)
         (attrs : list (jsstring * jsstring)) : list (jsstring * jsstring) :=
  match attrs with
  | [] => [(name, value)]
  | (k, v) :: rest =>
      if jseqb k name then (k, value) :: rest
      else (k, v) :: putAttribute name value rest
  end.

Fixpoint get (n : node) (p : path) : option node :=
  match p with
  | [] => Some n
  | i :: q =>
      match nth_error (childNodes n) i with
      | Some k => get k q
      | None => None
      end
  end.

Fixpoint list_update (l : list node) (i : nat) (f : node -> node) : list node :=
  match l, i with
  | [], _ => []
  | x :: t, O => f x :: t
  | x :: t, S j => x :: list_update t j f
  end.

(** The tree with the node at [p] replaced by its image under [f]; a path
    that leads nowhere changes nothing. *)
Fixpoint update (n : node) (p : path) (f : node -> node) : node :=
  match p with
  | [] => f n
  | i :: q =>
      match n with
      | Elem t d c a ks => Elem t d c a (list_update ks i (fun k => update k q f))
      | Text _ => n
      end
  end.

Fixpoint textContent (n : node) : jsstring :=
  match n with
  | Text d => d
  | Elem _ _ _ _ ks => flat_map textContent ks
  end.

(** The elements of a tree, the root included, in document order. *)
Fixpoint elements (n : node) : list node :=
  match n with
  | Text _ => []
  | Elem _ _ _ _ ks => n :: flat_map elements ks
  end.

(** The paths of the elements among the children [l] and below them, in
    document order; [i] is the position of the first child of [l] and
    [below] gives the paths under one child. *)
Definition under (below : node -> list path) : nat -> list node -> list path :=
  fix each (i : nat) (l : list node) {struct l} : list path :=
    match l with
    | [] => []
    | k :: l' =>
        match k with
        | Text _ => each (S i) l'
        | Elem _ _ _ _ _ => ([i] :: map (cons i) (below k)) ++ each (S i) l'
        end
    end.

(** The paths of the elements below [n], in document order. *)
Fixpoint descendants (n : node) : list path :=
  match n with
  | Text _ => []
  | Elem _ _ _ _ ks => under descendants 0 ks
  end.

(** *** Selectors *)

Inductive simple : Type :=
| ByTag (t : jsstring)                 (* h2 *)
| ByClass (c : jsstring)               (* .copy-link *)
| ById (i : jsstring)                  (* getElementById *)
| TagAttrPrefix (t a v : jsstring).    (* a[href^="#"] *)

Inductive complex : Type :=
| Simple (s : simple)
| Within (ancestor s : simple).        (* .markdown-section h2 *)

(** A selector list, as separated by commas. *)
Definition selector := list complex.

Definition matches_simple (s : simple) (n : node) : bool :=
  match n with
  | Text _ => false
  | Elem t i cs a _ =>
      match s with
      | ByTag t' => jseqb t t'
      | ByClass c => existsb (jseqb c) cs
      | ById i' => jseqb i i'
      | TagAttrPrefix t' name v =>
          jseqb t t'
          && match getAttribute name a with
             | Some x => starts_with v x
             | None => false
             end
      end
  end.

(** The nodes strictly above [p]. *)
Definition ancestors (root : node) (p : path) : list node :=
  flat_map (fun k => match get root (firstn k p) with
                     | Some n => [n]
                     | None => []
                     end)
           (seq 0 (List.length p)).

Definition matches (root : node) (sel : selector) (p : path) : bool :=
  match get root p with
  | None => false
  | Some n =>
      existsb (fun c => match c with
                        | Simple s => matches_simple s n
                        | Within a s =>
                            matches_simple s n
                            && existsb (matches_simple a) (ancestors root p)
                        end) sel
  end.

(** [document.querySelectorAll]: the root itself can match. *)
Definition querySelectorAll (root : node) (sel : selector) : list path :=
  filter (matches root sel) ([] :: descendants root).

Definition querySelector (root : node) (sel : selector) : option path :=
  hd_error (querySelectorAll root sel).

Definition getElementById (root : node) (i : jsstring) : option path :=
  querySelector root [Simple (ById i)].

(** [element.querySelectorAll] for the element at [scope]: only what is
    below it can match. *)
Definition querySelectorAllIn (root : node) (scope : path) (sel : selector)
  : list path :=
  match get root scope with
  | Some n => filter (matches root sel) (map (app scope) (descendants n))
  | None => []
  end.

Definition querySelectorIn (root : node) (scope : path) (sel : selector)
  : option path :=
  hd_error (querySelectorAllIn root scope sel).

(** [element.closest]: the element itself, then its ancestors, nearest first. *)
Definition closest (root : node) (p : path) (sel : selector) : option path :=
  find (matches root sel)
       (map (fun k => firstn k p) (rev (seq 0 (S (List.length p))))).

(** *** Mutations *)

Definition appendChild (root : node) (parent : path) (child : node) : node :=
  update root parent
         (fun n => match n with
                   | Elem t i c a ks => Elem t i c a (ks ++ [child])
                   | Text _ => n
                   end).

(** [parent.insertBefore(new, ref)] where [ref] is the child at [pos]. *)
Definition insertBefore (root : node) (parent : path) (new : node) (pos : nat)
  : node :=
  update root parent
         (fun n => match n with
                   | Elem t i c a ks =>
                       Elem t i c a (firstn pos ks ++ new :: skipn pos ks)
                   | Text _ => n
                   end).

Definition setId (root : node) (p : path) (i : jsstring) : node :=
  update root p
         (fun n => match n with
                   | Elem t _ c a ks => Elem t i c a ks
                   | Text _ => n
                   end).

Definition setAttribute (root : node) (p : path) (name value : jsstring) : node :=
  update root p
         (fun n => match n with
                   | Elem t i c a ks => Elem t i c (putAttribute name value a) ks
                   | Text _ => n
                   end).

(** Assigning [textContent] (or [innerHTML] with plain text): the children
    become one text node, or none for the empty string. *)
Definition setTextContent (root : node) (p : path) (s : jsstring) : node :=
  update root p
         (fun n => match n with
                   | Elem t i c a _ =>
                       Elem t i c a (match s with [] => [] | _ => [Text s] end)
                   | Text _ => n
                   end).

(** A path split into the parent's path and the position under it. *)
Fixpoint unsnoc (p : path) : option (path * nat) :=
  match p with
  | [] => None
  | i :: q =>
      match unsnoc q with
      | None => Some ([], i)
      | Some (pp, j) => Some (i :: pp, j)
      end
  end.

(** How many elements of the tree match [s]. *)
Definition count (s : simple) (root : node) : nat :=
  List.length (filter (matches_simple s) (elements root)).

End Dom.

(** ** ThemeManager *)

Module ThemeManager.

(** What the theme manager reads and writes outside itself: the
    [data-color-scheme] attribute of the document element, the body, the
    entry [blog-theme] of [localStorage] (whose reads and writes may throw)
    and the state of the media query [(prefers-color-scheme: dark)]. *)
Record world : Type := {
  colorScheme : option jsstring;
  body : Dom.node;
  blogTheme : option jsstring;
  storageReads : bool;
  storageWrites : bool;
  prefersDark : bool
}.

(** The manager: its field [currentTheme], the world it acts on, and
    whether a timer that calls [addToggle] again is pending. *)
Record manager : Type := {
  currentTheme : jsstring;
  page : world;
  retryPending : bool
}.

Definition dark : jsstring := lit "dark".
Definition light : jsstring := lit "light".

Definition getStoredTheme (w : world) : option jsstring :=
  if storageReads w then blogTheme w else None.

Definition getSystemPreference (w : world) : jsstring :=
  if prefersDark w then dark else light.

(** [a || b] for a string-or-null [a]. *)
Definition or_else (a : option jsstring) (b : jsstring) : jsstring :=
  match a with
  | Some s => if truthy s then s else b
  | None => b
  end.

Definition storeTheme (theme : jsstring) (w : world) : world :=
  if storageWrites w then
    {| colorScheme := colorScheme w; body := body w;
       blogTheme := Some theme;
       storageReads := storageReads w; storageWrites := storageWrites w;
       prefersDark := prefersDark w |}
  else w.

Definition setColorScheme (theme : jsstring) (w : world) : world :=
  {| colorScheme := Some theme; body := body w; blogTheme := blogTheme w;
     storageReads := storageReads w; storageWrites := storageWrites w;
     prefersDark := prefersDark w |}.

Definition setBody (b : Dom.node) (w : world) : world :=
  {| colorScheme := colorScheme w; body := b; blogTheme := blogTheme w;
     storageReads := storageReads w; storageWrites := storageWrites w;
     prefersDark := prefersDark w |}.

Definition setPrefersDark (d : bool) (w : world) : world :=
  {| colorScheme := colorScheme w; body := body w; blogTheme := blogTheme w;
     storageReads := storageReads w; storageWrites := storageWrites w;
     prefersDark := d |}.

Definition applyTheme (theme : jsstring) (m : manager) : manager :=
  {| currentTheme := theme;
     page := storeTheme theme (setColorScheme theme (page m));
     retryPending := retryPending m |}.

Definition updateToggleButton (m : manager) : manager :=
  let b := body (page m) in
  match Dom.getElementById b (lit "theme-toggle") with
  | Some toggle =>
      let isDark := jseqb (currentTheme m) dark in
      let b1 := Dom.setTextContent b toggle (if isDark then sunIcon else moonIcon) in
      let b2 := Dom.setAttribute b1 toggle (lit "aria-label")
                  (if isDark then lit "Switch to light theme"
                   else lit "Switch to dark theme") in
      {| currentTheme := currentTheme m; page := setBody b2 (page m);
         retryPending := retryPending m |}
  | None => m
  end.

Definition toggleTheme (m : manager) : manager :=
  let newTheme := if jseqb (currentTheme m) dark then light else dark in
  updateToggleButton (applyTheme newTheme m).

Definition toggleButton : Dom.node :=
  Dom.Elem (lit "button") (lit "theme-toggle") []
           [(lit "aria-label", lit "Toggle theme")] [].

(** One run of the closure [addToggle] of [createThemeToggle]: without a
    navigation bar it only schedules itself again. *)
Definition addToggle (m : manager) : manager :=
  let b := body (page m) in
  match Dom.querySelector b [Dom.Simple (Dom.ByClass (lit "app-nav"))] with
  | None =>
      {| currentTheme := currentTheme m; page := page m; retryPending := true |}
  | Some nav =>
      let m0 := {| currentTheme := currentTheme m; page := page m;
                   retryPending := false |} in
      match Dom.getElementById b (lit "theme-toggle") with
      | Some _ => m0
      | None =>
          updateToggleButton
            {| currentTheme := currentTheme m;
               page := setBody (Dom.appendChild b nav toggleButton) (page m);
               retryPending := false |}
      end
  end.

Definition createThemeToggle (m : manager) : manager := addToggle m.

(** [addSystemThemeListener] registers [onSystemChange] below and changes
    nothing by itself. *)
Definition init (m : manager) : manager :=
  createThemeToggle (applyTheme (currentTheme m) m).

Definition constructor (w : world) : manager :=
  init {| currentTheme := or_else (getStoredTheme w) (getSystemPreference w);
          page := w; retryPending := false |}.

(** The listener of the media query: the query now reports [matches]. *)
Definition onSystemChange (matches : bool) (m : manager) : manager :=
  let m1 := {| currentTheme := currentTheme m;
               page := setPrefersDark matches (page m);
               retryPending := retryPending m |} in
  match getStoredTheme (page m1) with
  | Some s =>
      if truthy s then m1
      else updateToggleButton (applyTheme (if matches then dark else light) m1)
  | None => updateToggleButton (applyTheme (if matches then dark else light) m1)
  end.

(** The media query reports each state of [events] in turn. *)
Definition systemChanges (events : list bool) (m : manager) : manager :=
  fold_left (fun m' e => onSystemChange e m') events m.

(** Two managers that differ at most in the body of the page and in the
    pending retry. *)
Definition same_theme (m m' : manager) : Prop :=
  currentTheme m' = currentTheme m
  /\ colorScheme (page m') = colorScheme (page m)
  /\ blogTheme (page m') = blogTheme (page m)
  /\ storageReads (page m') = storageReads (page m)
  /\ storageWrites (page m') = storageWrites (page m)
  /\ prefersDark (page m') = prefersDark (page m).

End ThemeManager.

(** ** ReadingProgress *)

(** [Math.min] of two numbers: NaN if either is, and -0 below +0. *)
Definition Math_min (a b : float) : float :=
  if PrimFloat.is_nan a || PrimFloat.is_nan b then PrimFloat.nan
  else if PrimFloat.ltb a b then a
  else if PrimFloat.ltb b a then b
  else if PrimFloat.get_sign a then a else b.

Module ReadingProgress.

Definition progressBar : Dom.node :=
  Dom.Elem (lit "div") (lit "reading-progress") [] [] [].

Definition createProgressBar (body : Dom.node) : Dom.node :=
  Dom.appendChild body [] progressBar.

(** The scroll metrics the handler reads. *)
Record viewport : Type := {
  pageYOffset : float;
  scrollHeight : float;
  innerHeight : float
}.

Definition scrollPercent (v : viewport) : float :=
  let scrollTop := pageYOffset v in
  let docHeight := PrimFloat.sub (scrollHeight v) (innerHeight v) in
  PrimFloat.mul (PrimFloat.div scrollTop docHeight) 100%float.

(** The frame callback: the percentage it writes into the width of the
    bar ([None] when there is no bar and it returns at once), and the flag
    [ticking] afterwards. *)
Definition updateProgress (body : Dom.node) (v : viewport) (ticking : bool)
  : option float * bool :=
  match Dom.getElementById body (lit "reading-progress") with
  | None => (None, ticking)
  | Some _ => (Some (Math_min (scrollPercent v) 100%float), false)
  end.

(** The scroll listener: whether it requests a frame, and [ticking] afterwards. *)
Definition onScroll (ticking : bool) : bool * bool :=
  if ticking then (false, ticking) else (true, true).

(** A percentage between 0 and 100; NaN is not. *)
Definition in_range (x : float) : bool :=
  PrimFloat.leb 0%float x && PrimFloat.leb x 100%float.

Definition init (body : Dom.node) : Dom.node := createProgressBar body.

End ReadingProgress.

(** ** LinkCopier *)

Module LinkCopier.

Definition copyLinkButton : Dom.node :=
  Dom.Elem (lit "button") [] [lit "copy-link"]
           [(lit "aria-label", lit "Copy link to this section")]
           [Dom.Text linkIcon].

Definition headingSelector : Dom.selector :=
  [Dom.Within (Dom.ByClass (lit "markdown-section")) (Dom.ByTag (lit "h2"));
   Dom.Within (Dom.ByClass (lit "markdown-section")) (Dom.ByTag (lit "h3"))].

Definition copySelector : Dom.selector :=
  [Dom.Simple (Dom.ByClass (lit "copy-link"))].

(** The body of the [forEach] of [addCopyLinks]. *)
Definition decorate (body : Dom.node) (heading : Dom.path) : Dom.node :=
  match Dom.get body heading with
  | Some h =>
      if truthy (Dom.nodeId h)
         && match Dom.querySelectorIn body heading copySelector with
            | Some _ => false
            | None => true
            end
      then Dom.appendChild body heading copyLinkButton
      else body
  | None => body
  end.

Definition addCopyLinks (body : Dom.node) : Dom.node :=
  fold_left decorate (Dom.querySelectorAll body headingSelector) body.

(** How the two copy mechanisms answer: whether the promise of
    [navigator.clipboard.writeText] is fulfilled, and what
    [document.execCommand('copy')] does. *)
Inductive exec : Type :=
| Returned (ok : bool)
| Threw.

Record platform : Type := {
  origin : jsstring;
  pathname : jsstring;
  writeText : bool;
  execCommand : exec
}.

(** A platform call made by the copy action. *)
Inductive call : Type :=
| CallWriteText (text : jsstring)
| CallExecCommand (text : jsstring).

(** The page during a copy: the body, the clipboard, the calls made so
    far (oldest first) and the pending timers of [showCopyFeedback], each
    with the button and the icon it will put back. *)
Record page : Type := {
  body : Dom.node;
  clipboard : option jsstring;
  calls : list call;
  timers : list (Dom.path * jsstring)
}.

Definition textArea (text : jsstring) : Dom.node :=
  Dom.Elem (lit "textarea") [] [] [(lit "value", text)] [].

(** Returns the page and whether the function ran to its end. *)
Definition fallbackCopy (env : platform) (text : jsstring) (pg : page)
  : page * bool :=
  let b1 := Dom.appendChild (body pg) [] (textArea text) in
  let log := calls pg ++ [CallExecCommand text] in
  match execCommand env with
  | Returned ok =>
      ({| body := Dom.update b1 []
                    (fun n => match n with
                              | Dom.Elem t i c a ks => Dom.Elem t i c a (removelast ks)
                              | Dom.Text _ => n
                              end);
          clipboard := if ok then Some text else clipboard pg;
          calls := log; timers := timers pg |}, true)
  | Threw =>
      ({| body := b1; clipboard := clipboard pg; calls := log;
          timers := timers pg |}, false)
  end.

Definition innerHTML (b : Dom.node) (button : Dom.path) : jsstring :=
  match Dom.get b button with
  | Some n => Dom.textContent n
  | None => []
  end.

Definition showCopyFeedback (button : Dom.path) (icon : jsstring) (pg : page)
  : page :=
  let originalIcon := innerHTML (body pg) button in
  {| body := Dom.setTextContent (body pg) button icon;
     clipboard := clipboard pg; calls := calls pg;
     timers := timers pg ++ [(button, originalIcon)] |}.

(** A timer of [showCopyFeedback] fires. *)
Definition restoreIcon (button : Dom.path) (originalIcon : jsstring) (pg : page)
  : page :=
  {| body := Dom.setTextContent (body pg) button originalIcon;
     clipboard := clipboard pg; calls := calls pg;
     timers := tl (timers pg) |}.

Definition copyLink (env : platform) (headingId : jsstring) (button : Dom.path)
           (pg : page) : page :=
  let url := (origin env ++ pathname env ++ lit "#" ++ headingId)%list in
  let pg1 := {| body := body pg; clipboard := clipboard pg;
                calls := calls pg ++ [CallWriteText url];
                timers := timers pg |} in
  if writeText env then
    showCopyFeedback button checkIcon
      {| body := body pg1; clipboard := Some url; calls := calls pg1;
         timers := timers pg1 |}
  else
    let (pg2, finished) := fallbackCopy env url pg1 in
    if finished then showCopyFeedback button checkIcon pg2 else pg2.

(** Both mechanisms fail: the promise is rejected and [execCommand] does
    not copy. *)
Definition both_fail (env : platform) : bool :=
  negb (writeText env)
  && match execCommand env with
     | Returned ok => negb ok
     | Threw => true
     end.

(** The success icon is on the button. *)
Definition feedback_shown (pg : page) (button : Dom.path) : bool :=
  jseqb (innerHTML (body pg) button) checkIcon.

End LinkCopier.

(** ** TableOfContents *)

Module TableOfContents.

Local Open Scope N_scope.

Definition generateId (text : jsstring) : jsstring :=
  trim
    (replace_runs is_hyphen 45
       (replace_runs is_space 45
          (filter kept (toLowerCase text)))).

Local Close Scope N_scope.

Definition contentSelector : Dom.selector :=
  [Dom.Simple (Dom.ByClass (lit "markdown-section"))].

Definition headingSelector : Dom.selector :=
  [Dom.Simple (Dom.ByTag (lit "h2")); Dom.Simple (Dom.ByTag (lit "h3"))].

Definition createTOCElement : Dom.node :=
  Dom.Elem (lit "nav") [] [lit "table-of-contents"] []
           [Dom.Elem (lit "h4") [] [] [] [Dom.Text (lit "Table of Contents")]].

(** The text of a fresh element after [textContent] is assigned. *)
Definition textNodes (s : jsstring) : list Dom.node :=
  match s with [] => [] | _ => [Dom.Text s] end.

(** The body of the [forEach] of [createTOCList]: the heading gets an
    identifier when it has none, and one more item is appended to the list. *)
Definition addEntry (st : Dom.node * list Dom.node) (heading : Dom.path)
  : Dom.node * list Dom.node :=
  let (b, items) := st in
  match Dom.get b heading with
  | Some h =>
      let i := if truthy (Dom.nodeId h) then Dom.nodeId h
               else generateId (Dom.textContent h) in
      let b1 := if truthy (Dom.nodeId h) then b else Dom.setId b heading i in
      let link := Dom.Elem (lit "a") [] [] [(lit "href", (lit "#" ++ i)%list)]
                           (textNodes (Dom.textContent h)) in
      (b1, (items ++ [Dom.Elem (lit "li") [] [] [] [link]])%list)
  | None => st
  end.

Definition createTOCList (body : Dom.node) (headings : list Dom.path)
  : Dom.node * Dom.node :=
  let (b, items) := fold_left addEntry headings (body, []) in
  (b, Dom.Elem (lit "ul") [] [] [] items).

(** [firstP || firstH]. *)
Definition insertAfter (body : Dom.node) (content : Dom.path)
  : option Dom.path :=
  match Dom.querySelectorIn body content [Dom.Simple (Dom.ByTag (lit "p"))] with
  | Some firstP => Some firstP
  | None =>
      Dom.querySelectorIn body content
        [Dom.Simple (Dom.ByTag (lit "h1")); Dom.Simple (Dom.ByTag (lit "h2"))]
  end.

(** The table of contents that [generateTOC] builds for the content region
    at [content], with the body after identifiers were assigned. *)
Definition buildTOC (body : Dom.node) (content : Dom.path)
  : Dom.node * Dom.node :=
  let headings := Dom.querySelectorAllIn body content headingSelector in
  let (b1, tocList) := createTOCList body headings in
  (b1, match createTOCElement with
       | Dom.Elem t i c a ks => Dom.Elem t i c a (ks ++ [tocList])
       | Dom.Text d => Dom.Text d
       end).

Definition generateTOC (body : Dom.node) : Dom.node :=
  match Dom.querySelector body contentSelector with
  | None => body
  | Some content =>
      let headings := Dom.querySelectorAllIn body content headingSelector in
      if List.length headings <? 3 then body
      else
        let (b1, toc) := buildTOC body content in
        match insertAfter b1 content with
        | Some target =>
            match Dom.unsnoc target with
            | Some (parent, pos) =>
                match Dom.get b1 (parent ++ [S pos]) with
                | Some _ => Dom.insertBefore b1 parent toc (S pos)
                | None => b1
                end
            | None => b1
            end
        | None => b1
        end
  end.

End TableOfContents.

(** ** SmoothScroll *)

Module SmoothScroll.

(** What [document.querySelector(href)] answers, with the [top] of the
    bounding rectangle of the element found; a string that is no selector
    makes it throw. *)
Inductive lookup : Type :=
| Found (top : float)
| NotFound
| SyntaxError.

Inductive effect : Type :=
| PreventDefault
| ScrollTo (top : float) (smooth : bool).

Definition anchorSelector : Dom.selector :=
  [Dom.Simple (Dom.TagAttrPrefix (lit "a") (lit "href") (lit "#"))].

Definition href (body : Dom.node) (link : Dom.path) : jsstring :=
  match Dom.get body link with
  | Some (Dom.Elem _ _ _ a _) =>
      match Dom.getAttribute (lit "href") a with
      | Some h => h
      | None => []
      end
  | _ => []
  end.

(** The click listener, for a click on the element at [target]. *)
Definition onClick (querySelector : jsstring -> lookup) (pageYOffset : float)
           (body : Dom.node) (target : Dom.path) : list effect :=
  match Dom.closest body target anchorSelector with
  | None => []
  | Some link =>
      let h := href body link in
      if jseqb h (lit "#") then []
      else
        PreventDefault ::
        match querySelector h with
        | Found top =>
            let offsetTop :=
              PrimFloat.sub (PrimFloat.add top pageYOffset) 80%float in
            [ScrollTo offsetTop true]
        | NotFound => []
        | SyntaxError => []
        end
  end.

(** *** What the browser does with the href

    [document.querySelector] parses its argument as a CSS selector.  "#"
    followed by an identifier is an id selector.  "#" followed by a name
    that is no identifier (it begins with a digit, or with a hyphen that a
    digit or nothing follows), by nothing, or by an ASCII character that
    can neither be part of a name nor begin an escape, is no selector at
    all, and the call throws.  Every other string (an id selector followed
    by more, escapes, characters outside ASCII) is not parsed here. *)

Definition name_start (c : N) : bool :=
  (((97 <=? c) && (c <=? 122)) || ((65 <=? c) && (c <=? 90)) || (c =? 95))%N.

Definition name_unit (c : N) : bool :=
  (name_start c || ((48 <=? c) && (c <=? 57)) || (c =? 45))%N.

(** An identifier of CSS, written in ASCII and without escapes. *)
Definition is_identifier (i : jsstring) : bool :=
  forallb name_unit i
  && match i with
     | c :: rest =>
         name_start c
         || ((c =? 45)%N
             && match rest with
                | d :: _ => name_start d || (d =? 45)%N
                | [] => false
                end)
     | [] => false
     end.

Inductive parsed : Type :=
| IdSelector (i : jsstring)
| NoSelector
| NotParsed.

Definition parse (h : jsstring) : parsed :=
  match h with
  | 35%N :: i =>
      if is_identifier i then IdSelector i
      else if forallb name_unit i then NoSelector
      else
        match i with
        | c :: _ =>
            if ((1 <=? c) && (c <? 128))%N && negb (name_unit c)
               && negb (c =? 92)%N
            then NoSelector else NotParsed
        | [] => NoSelector
        end
  | _ => NotParsed
  end.

(** [document.querySelector(href)] followed by [getBoundingClientRect],
    with every element laid out at [top]; [other] answers for the strings
    that are not parsed here. *)
Definition document_querySelector (body : Dom.node) (top : float)
           (other : jsstring -> lookup) (h : jsstring) : lookup :=
  match parse h with
  | IdSelector i =>
      match Dom.getElementById body i with
      | Some _ => Found top
      | None => NotFound
      end
  | NoSelector => SyntaxError
  | NotParsed => other h
  end.

End SmoothScroll.

(** ** Sample pages *)

Module Samples.
Import Dom.

Definition el (t i txt : string) : node :=
  Elem (lit t) (lit i) [] [] [Text (lit txt)].

(** A docsify page: the navigation bar and the rendered article. *)
Definition docsify (article : list node) : node :=
  Elem (lit "body") [] [] []
       [Elem (lit "nav") [] [lit "app-nav"; lit "no-badge"] [] [];
        Elem (lit "section") [] [lit "content"] []
             [Elem (lit "article") (lit "main") [lit "markdown-section"] []
                   article]].

(** A title, a paragraph, three sections and a closing paragraph. *)
Definition post : node :=
  docsify [el "h1" "title" "Title"; el "p" "" "Intro";
           el "h2" "setup" "Setup"; el "h3" "" "First  Steps";
           el "h2" "" "Wrap up"; el "p" "" "Bye"].

(** Three sections, and the only paragraph is the last child. *)
Definition headingsThenParagraph : node :=
  docsify [el "h2" "a" "A"; el "h3" "b" "B"; el "h2" "c" "C"; el "p" "" "Bye"].


Definition world (stored : option jsstring) (systemDark : bool) (b : node)
  : ThemeManager.world :=
  {| ThemeManager.colorScheme := None;
     ThemeManager.body := b;
     ThemeManager.blogTheme := stored;
     ThemeManager.storageReads := true;
     ThemeManager.storageWrites := true;
     ThemeManager.prefersDark := systemDark |}.

Definition zeroHeight : ReadingProgress.viewport :=
  {| ReadingProgress.pageYOffset := 0%float;
     ReadingProgress.scrollHeight := 600%float;
     ReadingProgress.innerHeight := 600%float |}.

(** The button that [addCopyLinks] puts on the heading "Setup" of [post]. *)
Definition setupButton : path := [1; 0; 2; 1].

(** The browser on the sample pages, whose links are "#" followed by a
    name: the strings that [SmoothScroll.parse] does not parse find nothing
    here. *)
Definition lookupId (b : node) (top : float) (h : jsstring)
  : SmoothScroll.lookup :=
  SmoothScroll.document_querySelector b top (fun _ => SmoothScroll.NotFound) h.

Definition copyPage (b : node) : LinkCopier.page :=
  {| LinkCopier.body := b; LinkCopier.clipboard := None;
     LinkCopier.calls := []; LinkCopier.timers := [] |}.

Definition noClipboard (fallback : LinkCopier.exec) : LinkCopier.platform :=
  {| LinkCopier.origin := lit "https://example.org";
     LinkCopier.pathname := lit "/blog/post";
     LinkCopier.writeText := false;
     LinkCopier.execCommand := fallback |}.

End Samples.

(** ** The life of the theme manager *)

Module ThemeEvents.
Import ThemeManager.

(** What happens to a constructed manager: a click on the toggle, a change
    of the system color scheme, the retry timer of [createThemeToggle], and
    the host page rendering its body anew.  A click is taken whenever it
    comes; the timer only fires while one is pending. *)
Inductive event : Type :=
| Click
| SystemChange (matches : bool)
| RetryTimer
| Render (b : Dom.node).

Definition step (m : manager) (e : event) : manager :=
  match e with
  | Click => toggleTheme m
  | SystemChange matches => onSystemChange matches m
  | RetryTimer => if retryPending m then addToggle m else m
  | Render b =>
      {| currentTheme := currentTheme m; page := setBody b (page m);
         retryPending := retryPending m |}
  end.

Definition run (events : list event) (m : manager) : manager :=
  fold_left step events m.

(** The icon and the label that [updateToggleButton] gives the toggle. *)
Definition toggleIcon (theme : jsstring) : jsstring :=
  if jseqb theme dark then sunIcon else moonIcon.

Definition toggleLabel (theme : jsstring) : jsstring :=
  if jseqb theme dark then lit "Switch to light theme"
  else lit "Switch to dark theme".

End ThemeEvents.

(** ** The scroll listener and its frames *)

Module ScrollLoop.
Import ReadingProgress.

(** The closure of [addScrollListener]: the flag [ticking], the frames
    requested and not yet run, and the width last written to the bar. *)
Record loop : Type := {
  ticking : bool;
  pending : nat;
  width : option float
}.

Definition start : loop := {| ticking := false; pending := 0; width := None |}.

(** A scroll event, or the browser running a requested frame on the page as
    it is then. *)
Inductive event : Type :=
| Scroll
| Frame (body : Dom.node) (v : viewport).

Definition step (l : loop) (e : event) : loop :=
  match e with
  | Scroll =>
      let (request, t) := onScroll (ticking l) in
      {| ticking := t;
         pending := if request then S (pending l) else pending l;
         width := width l |}
  | Frame body v =>
      match pending l with
      | O => l
      | S k =>
          let (w, t) := updateProgress body v (ticking l) in
          {| ticking := t; pending := k;
             width := match w with Some x => Some x | None => width l end |}
      end
  end.

Definition run (events : list event) (l : loop) : loop :=
  fold_left step events l.

End ScrollLoop.

(** ** SearchEnhancer *)

Module SearchEnhancer.


(** The selector [.search input[type="search"]]: an [input] whose [type] is
    "search" (compared without regard to ASCII case, as HTML does for this
    attribute) below an element of class [search]. *)
Definition isSearchInput (root : Dom.node) (p : Dom.path) : bool :=
  match Dom.get root p with
  | Some (Dom.Elem t _ _ a _) =>
      jseqb t (lit "input")
      && match Dom.getAttribute (lit "type") a with
         | Some v => jseqb (toLowerCase v) (lit "search")
         | None => false
         end
      && existsb (Dom.matches_simple (Dom.ByClass (lit "search")))
                 (Dom.ancestors root p)
  | _ => false
  end.

Definition findSearchInput (root : Dom.node) : option Dom.path :=
  find (isSearchInput root) ([] :: Dom.descendants root).

Definition placeholder : jsstring := lit "Search posts... (Ctrl+K)".

(** The page as the enhancer sees it: the body, the focused element (none
    when the focus is on the body) and, for every [keydown] listener that
    [enhanceSearch] has registered, the search input it holds. *)
Record page : Type := {
  body : Dom.node;
  activeElement : option Dom.path;
  listeners : list Dom.path
}.

Definition enhanceSearch (pg : page) : page :=
  match findSearchInput (body pg) with
  | None => pg
  | Some searchInput =>
      {| body := Dom.setAttribute (body pg) searchInput (lit "placeholder")
                   placeholder;
         activeElement := activeElement pg;
         listeners := listeners pg ++ [searchInput] |}
  end.



End SearchEnhancer.

(** ** Analytics *)

Module Analytics.

Inductive line : Type :=
| PageView (path : jsstring)
| StartedSearching.

(** The set [pageViews] (in insertion order), the counter of
    [trackSearchUsage] and the lines written to the console. *)
Record analytics : Type := {
  pageViews : list jsstring;
  searchCount : nat;
  console : list line
}.

Definition start : analytics :=
  {| pageViews := []; searchCount := 0; console := [] |}.

(** [trackPageView], with [path] standing for the pathname followed by the
    hash. *)
Definition trackPageView (path : jsstring) (a : analytics) : analytics :=
  if existsb (jseqb path) (pageViews a) then a
  else {| pageViews := pageViews a ++ [path];
          searchCount := searchCount a;
          console := console a ++ [PageView path] |}.

(** The [input] listener of [trackSearchUsage]; [inSearch] tells whether
    the target matches [.search input]. *)
Definition onInput (inSearch : bool) (a : analytics) : analytics :=
  if inSearch then
    {| pageViews := pageViews a;
       searchCount := S (searchCount a);
       console := if Nat.eqb (S (searchCount a)) 1
                  then console a ++ [StartedSearching] else console a |}
  else a.

Inductive event : Type :=
| Visit (path : jsstring)
| Input (inSearch : bool).

Definition step (a : analytics) (e : event) : analytics :=
  match e with
  | Visit path => trackPageView path a
  | Input inSearch => onInput inSearch a
  end.

Definition run (events : list event) (a : analytics) : analytics :=
  fold_left step events a.

End Analytics.

(** ** The timers of the copy feedback *)

Module CopyTimers.
Import LinkCopier.

(** The oldest pending timer of [showCopyFeedback] fires. *)
Definition fireTimer (pg : page) : page :=
  match timers pg with
  | (button, originalIcon) :: _ => restoreIcon button originalIcon pg
  | [] => pg
  end.

End CopyTimers.

(** ** More sample pages *)

Module MoreSamples.
Import Dom.

(** A page whose storage can neither be read nor written. *)
Definition noStorage (systemDark : bool) (b : node) : ThemeManager.world :=
  {| ThemeManager.colorScheme := None;
     ThemeManager.body := b;
     ThemeManager.blogTheme := None;
     ThemeManager.storageReads := false;
     ThemeManager.storageWrites := false;
     ThemeManager.prefersDark := systemDark |}.

(** A link to a section with an element inside it. *)
Definition nestedLink : node :=
  Samples.docsify
    [Elem (lit "p") [] [] []
          [Elem (lit "a") [] [] [(lit "href", lit "#setup")]
                [Elem (lit "code") [] [] [] [Text (lit "setup")]]]].


(** The sidebar of docsify with its search box. *)
Definition searchPage : SearchEnhancer.page :=
  {| SearchEnhancer.body :=
       Elem (lit "body") [] [] []
            [Elem (lit "aside") [] [lit "sidebar"] []
                  [Elem (lit "div") [] [lit "search"] []
                        [Elem (lit "input") [] [] [(lit "type", lit "search")] []]]];
     SearchEnhancer.activeElement := None;
     SearchEnhancer.listeners := [] |}.


End MoreSamples.

(** ** Vocabulary of the properties *)

(** The markers by which the elements that the script creates are told. *)
Definition progressMarker : Dom.simple := Dom.ById (lit "reading-progress").
Definition tocMarker : Dom.simple := Dom.ByClass (lit "table-of-contents").
Definition toggleMarker : Dom.simple := Dom.ById (lit "theme-toggle").
Definition copyMarker : Dom.simple := Dom.ByClass (lit "copy-link").

(** The tag, the id and the classes of an element. *)
Definition label (n : Dom.node) : option (jsstring * jsstring * list jsstring) :=
  match n with
  | Dom.Text _ => None
  | Dom.Elem t i c _ _ => Some (t, i, c)
  end.

(** The selectors that look at nothing but the label. *)
Definition by_label (s : Dom.simple) : Prop :=
  match s with Dom.TagAttrPrefix _ _ _ => False | _ => True end.

(** [b'] is [b] with copy buttons appended here and there: what is in [b]
    is in [b'] and what is in [b'] is in [b] or in a copy button, under
    the same labels. *)
Definition decorated (b b' : Dom.node) : Prop :=
  (forall q n, Dom.get b q = Some n ->
     exists n', Dom.get b' q = Some n' /\ label n' = label n)
  /\ (forall q n', Dom.get b' q = Some n' ->
        (exists n, Dom.get b q = Some n /\ label n = label n')
        \/ (exists r n0, Dom.get LinkCopier.copyLinkButton r = Some n0
                         /\ label n0 = label n')).

(** [q] lies strictly below [p]. *)
Definition strictly_below (q p : Dom.path) : Prop :=
  exists r, r <> [] /\ q = (p ++ r)%list.

Local Open Scope N_scope.

(** No two neighbours of [s] are both hyphens. *)
Fixpoint single_hyphens (s : jsstring) : bool :=
  match s with
  | c :: (c' :: _) as t => negb (is_hyphen c && is_hyphen c') && single_hyphens t
  | _ => true
  end.

(** The code units of an identifier: a-z, 0-9 and the hyphen. *)
Definition id_unit (c : N) : Prop := kept c = true /\ is_space c = false.

(** What [generateId] returns before its final [trim]. *)
Definition hyphenated (text : jsstring) : jsstring :=
  replace_runs is_hyphen 45
    (replace_runs is_space 45 (filter kept (toLowerCase text))).

(** *** The slug as the specification words it *)

(** The sentence of the specification: "lowercase text, strip
    non-alphanumeric/space/hyphen characters, collapse whitespace to single
    hyphens, collapse repeated hyphens, trim edges".  One function for each
    step, composed in the order of the sentence; lower case is that of the
    language. *)
Module SlugSpec.








End SlugSpec.

Section MoreVocabulary.
Import Dom.
Local Open Scope nat_scope.

(** The code units a slug is made of: a-z, 0-9 and the hyphen. *)
Definition slug_unit (c : N) : bool :=
  (((97 <=? c) && (c <=? 122)) || ((48 <=? c) && (c <=? 57)) || (c =? 45))%N.

(** The code units that leave nothing in a slug: not kept by [generateId],
    no capital letter A-Z, and neither of the two code units whose lower
    case is ASCII. *)
Definition vanishes (c : N) : bool :=
  (negb (kept c) && negb ((65 <=? c) && (c <=? 90))
   && negb (c =? 8490) && negb (c =? 304))%N.

(** The identifier a heading has once the table of contents is built: its
    own, or the slug of its text when it has none. *)
Definition headingId (n : node) : jsstring :=
  if truthy (nodeId n) then nodeId n
  else TableOfContents.generateId (textContent n).

(** The item of the list for the heading [n]. *)
Definition tocItem (n : node) : node :=
  Elem (lit "li") [] [] []
       [Elem (lit "a") [] [] [(lit "href", (lit "#" ++ headingId n)%list)]
             (TableOfContents.textNodes (textContent n))].

(** The items for the headings at [hs] of the body [b0]. *)
Definition tocItems (b0 : node) (hs : list path) : list node :=
  flat_map (fun h => match get b0 h with
                     | Some n => [tocItem n]
                     | None => []
                     end) hs.

(** Everything of a node but its id and its children. *)
Definition kind (n : node)
  : jsstring + jsstring * list jsstring * list (jsstring * jsstring) :=
  match n with
  | Text d => inl d
  | Elem t _ c a _ => inr (t, c, a)
  end.

(** [n'] is [n] with, at most, a missing id filled in by the slug of its
    text: same tag, classes, attributes and text. *)
Definition id_filled (n n' : node) : Prop :=
  kind n' = kind n
  /\ textContent n' = textContent n
  /\ (nodeId n' = nodeId n
      \/ (truthy (nodeId n) = false
          /\ nodeId n' = TableOfContents.generateId (textContent n))).

(** [b] is [b0] with some missing ids filled in: the same nodes at the same
    places. *)
Definition ids_filled (b0 b : node) : Prop :=
  (forall q n, get b0 q = Some n -> exists n', get b q = Some n' /\ id_filled n n')
  /\ (forall q, get b q = None <-> get b0 q = None).

(** The function that [setId] applies. *)
Definition withId (i : jsstring) (n : node) : node :=
  match n with
  | Elem t _ c a ks => Elem t i c a ks
  | Text _ => n
  end.

(** The function that [setAttribute] applies. *)
Definition withAttribute (name value : jsstring) (n : node) : node :=
  match n with
  | Elem t i c a ks => Elem t i c (putAttribute name value a) ks
  | Text _ => n
  end.

(** How many elements among the nodes [ks] and below them match [s]. *)
Definition total (s : simple) (ks : list node) : nat :=
  List.length (filter (matches_simple s) (flat_map elements ks)).

(** The theme attribute shows the current theme, which is not empty, and
    storage, when it can be written, holds it. *)
Definition theme_in_sync (m : ThemeManager.manager) : Prop :=
  ThemeManager.colorScheme (ThemeManager.page m)
  = Some (ThemeManager.currentTheme m)
  /\ ThemeManager.currentTheme m <> []
  /\ (ThemeManager.storageWrites (ThemeManager.page m) = true ->
      ThemeManager.blogTheme (ThemeManager.page m)
      = Some (ThemeManager.currentTheme m)).

(** The paths of the page views on the console, oldest first. *)
Definition views (a : Analytics.analytics) : list jsstring :=
  flat_map (fun l => match l with
                     | Analytics.PageView p => [p]
                     | Analytics.StartedSearching => []
                     end)
           (Analytics.console a).

(** How often the console says that the user started searching. *)
Definition searches (a : Analytics.analytics) : nat :=
  List.length (filter (fun l => match l with
                                | Analytics.StartedSearching => true
                                | Analytics.PageView _ => false
                                end)
                      (Analytics.console a)).

(** Whether the event is a keystroke in the search box. *)
Definition typed_in_search (e : Analytics.event) : bool :=
  match e with
  | Analytics.Input true => true
  | _ => false
  end.

(** What holds of the analytics state all along: the set has no
    duplicates, the console lists the set, and the console says once that
    the user started searching if anything was typed in the search box. *)
Definition tidy (a : Analytics.analytics) : Prop :=
  NoDup (Analytics.pageViews a)
  /\ views a = Analytics.pageViews a
  /\ searches a = (if Nat.eqb (Analytics.searchCount a) 0 then 0 else 1).

End MoreVocabulary.

(** * Properties *)

(** ** Heading identifiers *)

Section Runs.
Variable p : N -> bool.
Variable r : N.


Lemma replace_runs_Forall (Q : N -> Prop) (s : jsstring) :
  Q r -> Forall Q s -> Forall Q (replace_runs p r s).
Proof.
  intros Hr. induction 1 as [|c t Hc Ht IH]; simpl; [constructor|].
  destruct (p c).
  - destruct t as [|c' t']; [repeat constructor; exact Hr|].
    destruct (p c'); [exact IH | constructor; [exact Hr | exact IH]].
  - constructor; assumption.
Qed.
End Runs.

Lemma single_hyphens_cons (c d : N) (u : jsstring) :
  single_hyphens (c :: d :: u)
  = negb (is_hyphen c && is_hyphen d) && single_hyphens (d :: u).
Proof. reflexivity. Qed.

Lemma replace_hyphens_single (s : jsstring) :
  single_hyphens (replace_runs is_hyphen 45 s) = true
  /\ (forall c t, s = c :: t -> is_hyphen c = false ->
        exists t', replace_runs is_hyphen 45 s = c :: t').
Proof.
  induction s as [|c t [IH1 IH2]].
  - split; [reflexivity | discriminate].
  - split.
    + cbn [replace_runs]. destruct (is_hyphen c) eqn:Hc.
      * destruct t as [|c' t']; [reflexivity|].
        destruct (is_hyphen c') eqn:Hc'; [exact IH1|].
        destruct (IH2 c' t' eq_refl Hc') as [t'' Ht''].
        rewrite Ht'' in *. rewrite single_hyphens_cons, Hc', IH1.
        rewrite andb_false_r. reflexivity.
      * destruct (replace_runs is_hyphen 45 t) as [|d u] eqn:Hd; [reflexivity|].
        rewrite single_hyphens_cons, Hc, IH1. reflexivity.
    + intros c0 t0 Heq Hc0. injection Heq as -> ->.
      cbn [replace_runs]. rewrite Hc0. eauto.
Qed.


Lemma id_unit_hyphen : id_unit 45.
Proof. split; reflexivity. Qed.


Lemma drop_while_none (p : N -> bool) (s : jsstring) :
  Forall (fun c => p c = false) s -> drop_while p s = s.
Proof. destruct 1 as [|c t Hc _]; simpl; [reflexivity | rewrite Hc; reflexivity]. Qed.

Lemma trim_none (s : jsstring) :
  Forall (fun c => is_space c = false) s -> trim s = s.
Proof.
  intros H. unfold trim. rewrite (drop_while_none _ _ H).
  rewrite drop_while_none by (apply Forall_rev; exact H).
  apply rev_involutive.
Qed.

Lemma hyphenated_units (text : jsstring) : Forall id_unit (hyphenated text).
Proof.
  unfold hyphenated.
  apply replace_runs_Forall; [exact id_unit_hyphen|].
  set (s := filter kept (toLowerCase text)).
  assert (Hs : Forall (fun c => kept c = true) s).
  { apply Forall_forall. intros c Hc. apply filter_In in Hc. tauto. }
  clearbody s. induction Hs as [|c t Hc _ IH]; simpl; [constructor|].
  destruct (is_space c) eqn:Hsp.
  - destruct t as [|c' t']; [repeat constructor; exact id_unit_hyphen|].
    destruct (is_space c'); [exact IH | constructor; [exact id_unit_hyphen | exact IH]].
  - constructor; [split; assumption | exact IH].
Qed.

Lemma generateId_hyphenated (text : jsstring) :
  TableOfContents.generateId text = hyphenated text.
Proof.
  unfold TableOfContents.generateId. fold (hyphenated text). apply trim_none.
  eapply Forall_impl; [|apply hyphenated_units]. intros c [_ H]. exact H.
Qed.




(** *** The steps of the specification *)

Section SlugSteps.
Import SlugSpec.














End SlugSteps.

Local Open Scope nat_scope.

(** ** Theme *)

Section Theme.
Import ThemeManager.

Lemma updateToggleButton_same (m : manager) : same_theme m (updateToggleButton m).
Proof.
  unfold updateToggleButton, same_theme.
  destruct (Dom.getElementById _ _); simpl; repeat split; reflexivity.
Qed.

Lemma addToggle_same (m : manager) : same_theme m (addToggle m).
Proof.
  unfold addToggle.
  destruct (Dom.querySelector _ _); [|repeat split; reflexivity].
  destruct (Dom.getElementById _ _); [repeat split; reflexivity|].
  match goal with |- same_theme _ (updateToggleButton ?x) =>
    destruct (updateToggleButton_same x) as (H1 & H2 & H3 & H4 & H5 & H6) end.
  unfold same_theme. simpl in *. rewrite H1, H2, H3, H4, H5, H6.
  repeat split; reflexivity.
Qed.

Lemma constructor_theme (w : world) :
  currentTheme (constructor w)
  = or_else (getStoredTheme w) (getSystemPreference w).
Proof.
  unfold constructor, init, createThemeToggle.
  match goal with |- currentTheme (addToggle ?x) = _ =>
    destruct (addToggle_same x) as (H & _) end.
  rewrite H. reflexivity.
Qed.

Lemma truthy_nonempty (s : jsstring) : s <> [] -> truthy s = true.
Proof. destruct s; [congruence | reflexivity]. Qed.

Lemma toggleTheme_scheme (m : manager) :
  currentTheme (toggleTheme m)
  = (if jseqb (currentTheme m) dark then light else dark)
  /\ colorScheme (page (toggleTheme m)) = Some (currentTheme (toggleTheme m)).
Proof.
  unfold toggleTheme.
  match goal with |- context [updateToggleButton ?x] =>
    destruct (updateToggleButton_same x) as (H1 & H2 & _) end.
  rewrite H1, H2. simpl. unfold storeTheme.
  destruct (storageWrites _); split; reflexivity.
Qed.

Lemma onSystemChange_skipped (matches : bool) (m : manager) (s : jsstring) :
  getStoredTheme (page m) = Some s -> s <> [] ->
  onSystemChange matches m
  = {| currentTheme := currentTheme m;
       page := setPrefersDark matches (page m);
       retryPending := retryPending m |}.
Proof.
  intros Hs Hne. unfold onSystemChange.
  assert (H : getStoredTheme (setPrefersDark matches (page m)) = Some s)
    by exact Hs.
  simpl. rewrite H, (truthy_nonempty _ Hne). reflexivity.
Qed.

(** C5 does not hold as stated: with "blue" in storage and a system that
    prefers dark, the initial theme is "blue", although "blue" is no valid
    theme and the claim then promises the system signal. *)
Lemma initial_theme_not_validated :
  let w := Samples.world (Some (lit "blue")) true Samples.post in
  currentTheme (constructor w) = lit "blue"
  /\ currentTheme (constructor w) <> getSystemPreference w
  /\ colorScheme (page (constructor w)) = Some (lit "blue").
Proof. repeat split. vm_compute. discriminate. Qed.

(** C5, as amended: the initial theme is a function of the stored value and
    the system signal.  It is the stored string whenever storage can be
    read and holds a non-empty string, whatever that string is; otherwise
    it is "dark" when the system prefers dark, and "light" when not. *)
Theorem initial_theme_resolution (w : world) :
  (forall s, storageReads w = true -> blogTheme w = Some s -> s <> [] ->
             currentTheme (constructor w) = s)
  /\ (storageReads w = false \/ blogTheme w = None \/ blogTheme w = Some [] ->
      currentTheme (constructor w) = if prefersDark w then dark else light).
Proof.
  rewrite constructor_theme. unfold getStoredTheme, getSystemPreference.
  split.
  - intros s Hr Hs Hne. rewrite Hr, Hs. simpl.
    rewrite (truthy_nonempty _ Hne). reflexivity.
  - intros [Hr | [Hs | Hs]].
    + rewrite Hr. reflexivity.
    + rewrite Hs. destruct (storageReads w); reflexivity.
    + rewrite Hs. destruct (storageReads w); reflexivity.
Qed.

Lemma initial_theme_resolution_witness :
  currentTheme (constructor (Samples.world (Some dark) false Samples.post)) = dark
  /\ currentTheme (constructor (Samples.world None true Samples.post)) = dark
  /\ currentTheme (constructor (Samples.world None false Samples.post)) = light.
Proof.
  split; [|split].
  - apply (proj1 (initial_theme_resolution
                    (Samples.world (Some dark) false Samples.post)));
      [reflexivity | reflexivity | discriminate].
  - apply (proj2 (initial_theme_resolution
                    (Samples.world None true Samples.post))).
    right; left; reflexivity.
  - apply (proj2 (initial_theme_resolution
                    (Samples.world None false Samples.post))).
    right; left; reflexivity.
Defined.

(** C8 does not hold as stated: started with "blue" in storage, the page
    carries the theme attribute "blue"; two toggles leave it at "light". *)
Lemma toggle_twice_from_unknown_theme :
  let m := constructor (Samples.world (Some (lit "blue")) true Samples.post) in
  colorScheme (page m) = Some (lit "blue")
  /\ colorScheme (page (toggleTheme (toggleTheme m))) = Some light
  /\ colorScheme (page (toggleTheme (toggleTheme m))) <> colorScheme (page m).
Proof. repeat split. vm_compute. discriminate. Qed.

(** C8, as amended: when the current theme is "dark" or "light" and the
    theme attribute of the document shows it, two toggles bring the
    attribute (and the current theme) back to where they were. *)
Theorem toggle_twice_restores (m : manager) :
  currentTheme m = dark \/ currentTheme m = light ->
  colorScheme (page m) = Some (currentTheme m) ->
  colorScheme (page (toggleTheme (toggleTheme m))) = colorScheme (page m)
  /\ currentTheme (toggleTheme (toggleTheme m)) = currentTheme m.
Proof.
  intros Hcur Hattr.
  destruct (toggleTheme_scheme (toggleTheme m)) as [H2 A2].
  destruct (toggleTheme_scheme m) as [H1 _].
  rewrite A2, Hattr, H2, H1.
  destruct Hcur as [-> | ->]; split; reflexivity.
Qed.

Lemma toggle_twice_restores_witness :
  let m := constructor (Samples.world None true Samples.post) in
  colorScheme (page (toggleTheme (toggleTheme m))) = colorScheme (page m)
  /\ currentTheme (toggleTheme (toggleTheme m)) = currentTheme m.
Proof.
  apply (toggle_twice_restores
           (constructor (Samples.world None true Samples.post)));
    [left; reflexivity | reflexivity].
Defined.

Lemma systemChanges_skipped (events : list bool) (m : manager) (s : jsstring) :
  getStoredTheme (page m) = Some s -> s <> [] ->
  colorScheme (page (systemChanges events m)) = colorScheme (page m)
  /\ currentTheme (systemChanges events m) = currentTheme m
  /\ getStoredTheme (page (systemChanges events m)) = Some s.
Proof.
  intros Hs Hne. revert m Hs.
  induction events as [|e events IH]; intros m Hs; [repeat split; exact Hs|].
  unfold systemChanges in *. simpl.
  rewrite (onSystemChange_skipped e m s Hs Hne).
  match goal with |- context [fold_left _ events ?x] =>
    destruct (IH x Hs) as (H1 & H2 & H3) end.
  rewrite H1, H2, H3. repeat split.
Qed.

Lemma toggleTheme_stored (m : manager) :
  storageReads (page m) = true -> storageWrites (page m) = true ->
  getStoredTheme (page (toggleTheme m)) = Some (currentTheme (toggleTheme m))
  /\ currentTheme (toggleTheme m) <> [].
Proof.
  intros Hr Hw. destruct (toggleTheme_scheme m) as [Hcur _]. split.
  - rewrite Hcur. unfold toggleTheme.
    match goal with |- context [updateToggleButton ?x] =>
      destruct (updateToggleButton_same x) as (_ & _ & H3 & H4 & _) end.
    unfold getStoredTheme. rewrite H4, H3. simpl.
    unfold storeTheme. simpl. rewrite Hw. simpl. rewrite Hr. reflexivity.
  - rewrite Hcur. destruct (jseqb (currentTheme m) dark); discriminate.
Qed.

(** After a toggle nothing can be read back from a storage that cannot be
    read, or that was empty and cannot be written. *)
Lemma toggleTheme_not_stored (m : manager) :
  storageReads (page m) = false
  \/ (storageWrites (page m) = false /\ blogTheme (page m) = None) ->
  getStoredTheme (page (toggleTheme m)) = None.
Proof.
  intros H. unfold toggleTheme.
  match goal with |- context [updateToggleButton ?x] =>
    destruct (updateToggleButton_same x) as (_ & _ & H3 & H4 & _) end.
  unfold getStoredTheme. rewrite H4, H3. cbn [applyTheme page].
  unfold storeTheme. cbn [setColorScheme storageWrites storageReads blogTheme].
  destruct H as [Hr | [Hw Hb]].
  - destruct (storageWrites (page m)); cbn [storageReads setColorScheme];
      rewrite Hr; reflexivity.
  - rewrite Hw. cbn [storageReads blogTheme setColorScheme]. rewrite Hb.
    destruct (storageReads (page m)); reflexivity.
Qed.

Lemma onSystemChange_applied (matches : bool) (m : manager) :
  getStoredTheme (page m) = None ->
  currentTheme (onSystemChange matches m) = (if matches then dark else light)
  /\ colorScheme (page (onSystemChange matches m))
     = Some (if matches then dark else light).
Proof.
  intros H. unfold onSystemChange.
  assert (Hs : getStoredTheme (page {| currentTheme := currentTheme m;
                                       page := setPrefersDark matches (page m);
                                       retryPending := retryPending m |}) = None)
    by exact H.
  rewrite Hs.
  match goal with |- context [updateToggleButton ?x] =>
    destruct (updateToggleButton_same x) as (H1 & H2 & _) end.
  rewrite H1, H2. cbn [applyTheme currentTheme page].
  split; [reflexivity|].
  unfold storeTheme. destruct (storageWrites _); reflexivity.
Qed.

(** C9 does not hold as stated: on a page whose storage cannot be used the
    user toggles from dark to light, no preference can be stored, and when
    the system goes to light and back to dark the listener sets the theme
    to dark. *)
Lemma toggle_choice_overridden_without_storage :
  let m := toggleTheme (constructor (MoreSamples.noStorage true Samples.post)) in
  currentTheme m = light
  /\ colorScheme (page m) = Some light
  /\ getStoredTheme (page m) = None
  /\ currentTheme (systemChanges [false; true] m) = dark
  /\ colorScheme (page (systemChanges [false; true] m)) = Some dark.
Proof. repeat split. Qed.

(** C9, as amended: while a stored preference can be read (storage
    answers and holds a non-empty string), the listener for system
    color-scheme changes is skipped: whatever changes the system reports,
    the theme attribute, the current theme and the stored preference stay
    as they were.  With storage that can be read and written that is the
    case after every toggle by the user.  With storage that cannot be
    read, or that is empty and cannot be written, the theme the user set
    with the toggle is not protected: the next system change replaces it
    by the scheme of the system. *)
Theorem system_change_keeps_stored_theme (events : list bool) (m : manager) :
  (forall s, getStoredTheme (page m) = Some s -> s <> [] ->
     colorScheme (page (systemChanges events m)) = colorScheme (page m)
     /\ currentTheme (systemChanges events m) = currentTheme m
     /\ getStoredTheme (page (systemChanges events m)) = Some s)
  /\ (storageReads (page m) = true -> storageWrites (page m) = true ->
      colorScheme (page (systemChanges events (toggleTheme m)))
      = colorScheme (page (toggleTheme m))
      /\ currentTheme (systemChanges events (toggleTheme m))
         = currentTheme (toggleTheme m))
  /\ (storageReads (page m) = false
      \/ (storageWrites (page m) = false /\ blogTheme (page m) = None) ->
      forall matches,
        currentTheme (onSystemChange matches (toggleTheme m))
        = (if matches then dark else light)
        /\ colorScheme (page (onSystemChange matches (toggleTheme m)))
           = Some (if matches then dark else light)).
Proof.
  split; [|split].
  - intros s. apply systemChanges_skipped.
  - intros Hr Hw. destruct (toggleTheme_stored m Hr Hw) as [Hs Hne].
    destruct (systemChanges_skipped events _ _ Hs Hne) as (H1 & H2 & _).
    split; assumption.
  - intros H matches. apply onSystemChange_applied.
    apply toggleTheme_not_stored. exact H.
Qed.

Lemma system_change_keeps_stored_theme_witness :
  let m := toggleTheme (constructor (Samples.world None false Samples.post)) in
  let m' := toggleTheme (constructor (MoreSamples.noStorage true Samples.post)) in
  (colorScheme (page (systemChanges [true; false; true] m)) = colorScheme (page m)
   /\ currentTheme (systemChanges [true; false; true] m) = currentTheme m)
  /\ currentTheme (onSystemChange true m') = dark
  /\ colorScheme (page (onSystemChange true m')) = Some dark.
Proof.
  split.
  - exact (proj1 (proj2 (system_change_keeps_stored_theme [true; false; true]
                    (constructor (Samples.world None false Samples.post))))
                 eq_refl eq_refl).
  - exact (proj2 (proj2 (system_change_keeps_stored_theme []
                    (constructor (MoreSamples.noStorage true Samples.post))))
                 (or_introl eq_refl) true).
Defined.

(** C10: with storage available, every [applyTheme] stores the theme it
    applies, the one made by the constructor included: once the manager is
    constructed the stored preference exists and is the current theme,
    also when nothing was stored before and the theme came from the
    system signal. *)
Theorem constructor_stores_theme (w : world) :
  storageReads w = true -> storageWrites w = true ->
  (forall theme m, storageWrites (page m) = true ->
                   blogTheme (page (applyTheme theme m)) = Some theme)
  /\ getStoredTheme (page (constructor w)) = Some (currentTheme (constructor w))
  /\ (blogTheme w = None ->
      getStoredTheme (page (constructor w)) = Some (getSystemPreference w)).
Proof.
  intros Hr Hw.
  assert (Happly : forall theme m, storageWrites (page m) = true ->
                     blogTheme (page (applyTheme theme m)) = Some theme).
  { intros theme m H. simpl. unfold storeTheme. simpl. rewrite H. reflexivity. }
  assert (Hstored : getStoredTheme (page (constructor w))
                    = Some (currentTheme (constructor w))).
  { rewrite constructor_theme. unfold constructor, init, createThemeToggle.
    match goal with |- context [addToggle ?x] =>
      destruct (addToggle_same x) as (_ & _ & H3 & H4 & _) end.
    unfold getStoredTheme at 1. rewrite H4, H3. simpl.
    unfold storeTheme. simpl. rewrite Hw. simpl. rewrite Hr. reflexivity. }
  split; [exact Happly | split; [exact Hstored|]].
  intros Hnone. rewrite Hstored, constructor_theme.
  unfold getStoredTheme. rewrite Hr, Hnone. reflexivity.
Qed.

Lemma constructor_stores_theme_witness :
  let w := Samples.world None true Samples.post in
  getStoredTheme (page (constructor w)) = Some dark.
Proof.
  exact (proj2 (proj2 (constructor_stores_theme
                         (Samples.world None true Samples.post)
                         eq_refl eq_refl)) eq_refl).
Defined.

End Theme.

(** ** Facts about the document tree *)

Section Tree.
Import Dom.

Lemma jseqb_eq (a b : jsstring) : jseqb a b = true <-> a = b.
Proof.
  revert b. induction a as [|x a IH]; intros [|y b]; simpl;
    try (split; [discriminate | discriminate]); [tauto|].
  rewrite andb_true_iff, N.eqb_eq, IH. split.
  - intros [-> ->]. reflexivity.
  - intros H. injection H as -> ->. split; reflexivity.
Qed.


Lemma get_app (n : node) (p q : path) :
  get n (p ++ q) = match get n p with
                   | Some m => get m q
                   | None => None
                   end.
Proof.
  revert n. induction p as [|i p IH]; intros n; simpl; [reflexivity|].
  destruct (nth_error (childNodes n) i); [apply IH | reflexivity].
Qed.

Lemma nth_error_list_update (l : list node) (i : nat) (f : node -> node) (k : node) :
  nth_error l i = Some k -> nth_error (list_update l i f) i = Some (f k).
Proof.
  revert i. induction l as [|x l IH]; intros [|i]; simpl; try discriminate.
  - intros H. injection H as ->. reflexivity.
  - apply IH.
Qed.

Lemma get_update (n : node) (p : path) (f : node -> node) (m : node) :
  get n p = Some m -> get (update n p f) p = Some (f m).
Proof.
  revert n. induction p as [|i p IH]; intros n; simpl.
  - intros H. injection H as ->. reflexivity.
  - destruct n as [d | t d c a ks]; simpl; [destruct i; discriminate|].
    destruct (nth_error ks i) as [k|] eqn:Hk; [|discriminate].
    intros H. rewrite (nth_error_list_update ks i _ k Hk). apply IH. exact H.
Qed.

(** Below an updated node, the tree reads as the image of that node does. *)
Lemma get_update_below (n : node) (p q : path) (f : node -> node) (m : node) :
  get n p = Some m -> get (update n p f) (p ++ q) = get (f m) q.
Proof.
  intros H. rewrite get_app, (get_update _ _ f _ H). reflexivity.
Qed.

Lemma unsnoc_app (p parent : path) (pos : nat) :
  unsnoc p = Some (parent, pos) -> p = parent ++ [pos].
Proof.
  revert parent. induction p as [|i p IH]; intros parent; simpl; [discriminate|].
  destruct (unsnoc p) as [[pp j]|] eqn:E.
  - intros H. injection H as <- <-. simpl. f_equal. apply IH. reflexivity.
  - intros H. injection H as <- <-. destruct p; [reflexivity|].
    simpl in E. destruct (unsnoc p) as [[? ?]|]; discriminate.
Qed.

Lemma nth_error_inserted (l : list node) (x : node) (pos : nat) :
  pos <= List.length l ->
  nth_error (firstn pos l ++ x :: skipn pos l) pos = Some x.
Proof.
  intros H. rewrite nth_error_app2; rewrite firstn_length_le by exact H;
    [|apply Nat.le_refl].
  rewrite Nat.sub_diag. reflexivity.
Qed.

Lemma nth_error_before_inserted (l : list node) (x : node) (pos i : nat) :
  i < pos -> pos <= List.length l ->
  nth_error (firstn pos l ++ x :: skipn pos l) i = nth_error l i.
Proof.
  intros Hi H. rewrite nth_error_app1 by (rewrite firstn_length_le; assumption).
  rewrite nth_error_firstn. apply Nat.ltb_lt in Hi. rewrite Hi. reflexivity.
Qed.

Lemma nth_error_after_inserted (l : list node) (x : node) (pos : nat) :
  pos <= List.length l ->
  nth_error (firstn pos l ++ x :: skipn pos l) (S pos) = nth_error l pos.
Proof.
  intros H. rewrite nth_error_app2; rewrite firstn_length_le by exact H;
    [|apply Nat.le_succ_diag_r].
  replace (S pos - pos) with 1 by lia. simpl.
  rewrite <- (firstn_skipn pos l) at 2.
  rewrite nth_error_app2; rewrite firstn_length_le by exact H;
    [|apply Nat.le_refl].
  rewrite Nat.sub_diag. destruct (skipn pos l); reflexivity.
Qed.

Lemma matches_simple_children (s : simple) (t i : jsstring) (c : list jsstring)
      (a : list (jsstring * jsstring)) (ks ks' : list node) :
  matches_simple s (Elem t i c a ks) = matches_simple s (Elem t i c a ks').
Proof. destruct s; reflexivity. Qed.

Lemma count_append (t i : jsstring) (c : list jsstring)
      (a : list (jsstring * jsstring)) (ks : list node) (x : node) (s : simple) :
  count s (Elem t i c a (ks ++ [x])) = count s (Elem t i c a ks) + count s x.
Proof.
  unfold count. cbn [elements filter].
  rewrite (matches_simple_children s t i c a (ks ++ [x]) ks).
  rewrite flat_map_app. cbn [flat_map]. rewrite app_nil_r.
  destruct (matches_simple s (Elem t i c a ks)); cbn [List.length];
    rewrite filter_app, length_app; reflexivity.
Qed.

Lemma matches_simple_label (s : simple) (n n' : node) :
  by_label s -> label n = label n' -> matches_simple s n = matches_simple s n'.
Proof.
  destruct s; simpl; try contradiction; intros _;
    destruct n, n'; simpl; try discriminate; try reflexivity;
    intros H; injection H as -> -> ->; reflexivity.
Qed.

Lemma nodeId_label (n n' : node) : label n = label n' -> nodeId n = nodeId n'.
Proof.
  destruct n, n'; simpl; try discriminate; try reflexivity.
  intros H. injection H as _ -> _. reflexivity.
Qed.

Lemma under_In (j : nat) (l : list node) (i : nat) (k : node) (q : path) :
  nth_error l i = Some k ->
  (q = [] /\ label k <> None) \/ In q (descendants k) ->
  In ((j + i) :: q) (under descendants j l).
Proof.
  revert j i. induction l as [|x l IH]; intros j [|i]; simpl; try discriminate.
  - intros H. injection H as ->. rewrite Nat.add_0_r.
    intros [[-> Hk] | Hq].
    + destruct k; [contradiction Hk; reflexivity | left; reflexivity].
    + destruct k; [contradiction Hq|]. right. apply in_or_app. left.
      apply in_map. exact Hq.
  - intros H Hq. rewrite <- Nat.add_succ_comm.
    destruct x; [apply IH; assumption|].
    right. apply in_or_app. right. apply IH; assumption.
Qed.

Lemma In_descendants (q : path) (n e : node) :
  q <> [] -> get n q = Some e -> label e <> None -> In q (descendants n).
Proof.
  revert n. induction q as [|i q IH]; intros n Hne Hget He; [contradiction Hne; reflexivity|].
  simpl in Hget. destruct n as [d | t d c a ks]; simpl in Hget; [destruct i; discriminate|].
  destruct (nth_error ks i) as [k|] eqn:Hk; [|discriminate].
  simpl. apply (under_In 0 ks i k q Hk).
  destruct q as [|i' q'].
  - left. simpl in Hget. injection Hget as ->. split; [reflexivity | exact He].
  - right. apply (IH k); [discriminate | exact Hget | exact He].
Qed.

(** An element that matches is found by the query. *)
Lemma querySelector_finds (b : node) (s : simple) (p : path) (n : node) :
  get b p = Some n -> matches_simple s n = true ->
  querySelector b [Simple s] <> None.
Proof.
  intros Hget Hm. unfold querySelector, querySelectorAll.
  assert (Hin : In p (filter (matches b [Simple s]) ([] :: descendants b))).
  { apply filter_In. split.
    - destruct p as [|i p]; [left; reflexivity|]. right.
      apply (In_descendants (i :: p) b n); [discriminate | exact Hget|].
      destruct n; [discriminate Hm | discriminate].
    - unfold matches. rewrite Hget. simpl. rewrite Hm. reflexivity. }
  destruct (filter _ _); [contradiction Hin | discriminate].
Qed.

Lemma querySelector_found (b : node) (s : simple) (p : path) :
  querySelector b [Simple s] = Some p ->
  exists n, get b p = Some n /\ matches_simple s n = true.
Proof.
  unfold querySelector, querySelectorAll. intros H.
  assert (Hin : In p (filter (matches b [Simple s]) ([] :: descendants b))).
  { destruct (filter _ _); [discriminate|]. injection H as ->. left. reflexivity. }
  apply filter_In in Hin as [_ Hm]. unfold matches in Hm.
  destruct (get b p) as [n|]; [|discriminate].
  exists n. split; [reflexivity|]. simpl in Hm. rewrite orb_false_r in Hm. exact Hm.
Qed.

Lemma nth_error_list_update_other (l : list node) (i j : nat) (f : node -> node) :
  i <> j -> nth_error (list_update l i f) j = nth_error l j.
Proof.
  revert i j. induction l as [|x l IH]; intros [|i] [|j] H; simpl; try reflexivity.
  - contradiction H; reflexivity.
  - apply IH. intros ->. apply H. reflexivity.
Qed.

Lemma marks_update (f : node -> node) (n : node) (p : path) :
  (forall m, label (f m) = label m) -> label (update n p f) = label n.
Proof.
  intros Hf. destruct p as [|i p]; simpl; [apply Hf|]. destruct n; reflexivity.
Qed.

Lemma get_update_label (f : node -> node) (p q : path) (n : node) :
  (forall m, label (f m) = label m) ->
  ~ strictly_below q p ->
  option_map label (get (update n p f) q) = option_map label (get n q).
Proof.
  intros Hf. revert n q. induction p as [|i p IH]; intros n q Hnb.
  - destruct q as [|j q]; [simpl; rewrite Hf; reflexivity|].
    contradiction Hnb. exists (j :: q). split; [discriminate | reflexivity].
  - destruct q as [|j q].
    + simpl get. simpl option_map. f_equal. apply (marks_update f n (i :: p) Hf).
    + destruct n as [d | t d c a ks]; [reflexivity|]. simpl.
      destruct (Nat.eq_dec i j) as [<- | Hij].
      * destruct (nth_error ks i) as [k|] eqn:Hk.
        -- rewrite (nth_error_list_update ks i _ k Hk). apply IH.
           intros (r & Hr & ->). apply Hnb. exists r. split; [exact Hr | reflexivity].
        -- assert (H : nth_error (list_update ks i (fun k => update k p f)) i = None).
           { clear -Hk. revert i Hk. induction ks as [|x ks IH']; intros [|i]; simpl;
               try discriminate; try reflexivity. apply IH'. }
           rewrite H. reflexivity.
      * rewrite (nth_error_list_update_other ks i j _ Hij). reflexivity.
Qed.

Lemma strictly_below_dec (q p : path) : strictly_below q p \/ ~ strictly_below q p.
Proof.
  revert q. induction p as [|i p IH]; intros q.
  - destruct q as [|j q].
    + right. intros (r & Hr & H). simpl in H. subst r. contradiction Hr; reflexivity.
    + left. exists (j :: q). split; [discriminate | reflexivity].
  - destruct q as [|j q].
    + right. intros (r & _ & H). discriminate.
    + destruct (Nat.eq_dec i j) as [<- | Hij].
      * destruct (IH q) as [(r & Hr & ->) | Hn].
        -- left. exists r. split; [exact Hr | reflexivity].
        -- right. intros (r & Hr & H). injection H as ->. apply Hn. exists r.
           split; [exact Hr | reflexivity].
      * right. intros (r & _ & H). injection H as <-. contradiction Hij; reflexivity.
Qed.

Lemma strictly_below_asym (q p : path) : strictly_below q p -> ~ strictly_below p q.
Proof.
  intros (r & Hr & ->) (r' & Hr' & H).
  apply (f_equal (@List.length nat)) in H. rewrite !length_app in H.
  destruct r; [contradiction Hr; reflexivity|]. destruct r'; [contradiction Hr'; reflexivity|].
  simpl in H. lia.
Qed.

Lemma setTextContent_label (b : node) (p q : path) (s : jsstring) :
  ~ strictly_below q p ->
  option_map label (get (setTextContent b p s) q) = option_map label (get b q).
Proof. apply get_update_label. intros [d | t i c a ks]; reflexivity. Qed.

Lemma setAttribute_label (b : node) (p q : path) (name value : jsstring) :
  ~ strictly_below q p ->
  option_map label (get (setAttribute b p name value) q) = option_map label (get b q).
Proof. apply get_update_label. intros [d | t i c a ks]; reflexivity. Qed.

Lemma appendChild_label (b : node) (p q : path) (x : node) :
  ~ strictly_below q p ->
  option_map label (get (appendChild b p x) q) = option_map label (get b q).
Proof. apply get_update_label. intros [d | t i c a ks]; reflexivity. Qed.

Lemma not_below_self (p : path) : ~ strictly_below p p.
Proof.
  intros (r & Hr & H). apply Hr.
  apply (f_equal (@List.length nat)) in H. rewrite length_app in H.
  destruct r; [reflexivity | simpl in H; lia].
Qed.

(** A query that finds an element in [b] finds one in [b'] when the node at
    the same place of [b'] carries the same id and classes. *)
Lemma querySelector_transfer (b b' : node) (s : simple) (p : path) (n : node) :
  by_label s ->
  get b p = Some n -> matches_simple s n = true ->
  option_map label (get b' p) = option_map label (get b p) ->
  querySelector b' [Simple s] <> None.
Proof.
  intros Hs Hget Hm Hmarks. rewrite Hget in Hmarks.
  destruct (get b' p) as [n'|] eqn:Hget'; [|discriminate].
  simpl in Hmarks. injection Hmarks as Hmarks.
  apply (querySelector_finds b' s p n' Hget').
  rewrite (matches_simple_label s n' n Hs Hmarks). exact Hm.
Qed.

Lemma descendants_nonempty (n : node) :
  Forall (fun q => q <> []) (descendants n).
Proof.
  destruct n as [d | t i c a ks]; simpl; [constructor|].
  generalize 0. induction ks as [|k ks IH]; intros j; [constructor|].
  destruct k as [d | t' i' c' a' ks']; [apply IH|].
  cbn [under app]. constructor; [discriminate|].
  apply Forall_app. split; [|apply IH].
  apply Forall_forall. intros q Hq. apply in_map_iff in Hq as (q' & <- & _).
  discriminate.
Qed.

Lemma querySelectorIn_below (b : node) (scope : path) (sel : selector) (q : path) :
  querySelectorIn b scope sel = Some q -> exists parent pos, q = parent ++ [pos].
Proof.
  unfold querySelectorIn, querySelectorAllIn.
  destruct (get b scope) as [n|]; [|discriminate].
  intros H.
  assert (Hin : In q (filter (matches b sel) (map (app scope) (descendants n)))).
  { destruct (filter _ _); [discriminate|]. injection H as ->. left. reflexivity. }
  apply filter_In in Hin as [Hin _].
  apply in_map_iff in Hin as (r & <- & Hr).
  pose proof (proj1 (Forall_forall _ _) (descendants_nonempty n) r Hr) as Hne.
  destruct (exists_last Hne) as (r' & pos & ->).
  exists (scope ++ r'), pos. apply app_assoc.
Qed.

End Tree.

(** ** Appending a child *)

Section Append.
Import Dom.
Variable x : node.

(** What was in the tree is still there after [appendChild], under the
    same label. *)
Lemma appendChild_keeps (p q : path) (b n : node) :
  get b q = Some n ->
  exists n', get (appendChild b p x) q = Some n' /\ label n' = label n.
Proof.
  unfold appendChild. revert b q. induction p as [|i p IH]; intros b q Hq.
  - destruct b as [d | t d c a ks]; simpl; [eauto|].
    destruct q as [|j q]; simpl in *.
    + injection Hq as <-. eauto.
    + destruct (nth_error ks j) as [k|] eqn:Hk; [|discriminate].
      rewrite nth_error_app1 by (apply nth_error_Some; rewrite Hk; discriminate).
      rewrite Hk. eauto.
  - destruct b as [d | t d c a ks]; simpl; [eauto|].
    destruct q as [|j q]; simpl in *.
    + injection Hq as <-. eauto.
    + destruct (nth_error ks j) as [k|] eqn:Hk; [|discriminate].
      destruct (Nat.eq_dec i j) as [-> | Hij].
      * rewrite (nth_error_list_update ks j _ k Hk). apply IH. exact Hq.
      * rewrite (nth_error_list_update_other ks i j _ Hij), Hk. eauto.
Qed.

(** What is in the tree after [appendChild] was there before, under the
    same label, or lies in the appended node. *)
Lemma appendChild_adds (p q : path) (b n' : node) :
  get (appendChild b p x) q = Some n' ->
  (exists n, get b q = Some n /\ label n = label n')
  \/ (exists r, get x r = Some n').
Proof.
  unfold appendChild. revert b q. induction p as [|i p IH]; intros b q Hq.
  - destruct b as [d | t d c a ks]; simpl in Hq; [eauto|].
    destruct q as [|j q]; simpl in *.
    + injection Hq as <-. left. eauto.
    + destruct (Nat.lt_ge_cases j (List.length ks)) as [Hlt | Hge].
      * rewrite nth_error_app1 in Hq by exact Hlt. left. eauto.
      * rewrite nth_error_app2 in Hq by exact Hge.
        destruct (j - List.length ks) as [|j']; simpl in Hq.
        -- right. eauto.
        -- destruct j'; discriminate.
  - destruct b as [d | t d c a ks]; simpl in Hq; [eauto|].
    destruct q as [|j q]; simpl in *.
    + injection Hq as <-. left. eauto.
    + destruct (Nat.eq_dec i j) as [-> | Hij].
      * destruct (nth_error ks j) as [k|] eqn:Hk.
        -- rewrite (nth_error_list_update ks j _ k Hk) in Hq.
           destruct (IH k q Hq) as [(n & Hn & Hl) | Hr]; [left; eauto | right; exact Hr].
        -- assert (H : nth_error (list_update ks j (fun k => update k p
                     (fun n => match n with
                               | Elem t i c a ks => Elem t i c a (ks ++ [x])
                               | Text _ => n
                               end))) j = None).
           { clear -Hk. revert j Hk. induction ks as [|y ks IH']; intros [|j]; simpl;
               try discriminate; try reflexivity. apply IH'. }
           rewrite H in Hq. discriminate.
      * rewrite (nth_error_list_update_other ks i j _ Hij) in Hq. left.
        destruct (nth_error ks j); [eauto | discriminate].
Qed.

End Append.


(** ** Reading progress *)

Section Progress.
Import ReadingProgress.

Lemma SFcompare_swap (x y : spec_float) :
  SFcompare y x = option_map CompOpp (SFcompare x y).
Proof.
  destruct x as [sx | sx | | sx mx ex], y as [sy | sy | | sy my ey]; simpl;
    try reflexivity; try (destruct sx; reflexivity); try (destruct sy; reflexivity);
    try (destruct sx, sy; reflexivity).
  destruct sx, sy; simpl; try reflexivity; f_equal;
    rewrite (Z.compare_antisym ex ey); destruct (Z.compare ex ey); simpl;
      try reflexivity; rewrite (Pos.compare_cont_antisym mx my Eq); reflexivity.
Qed.

Lemma leb_refl (b : float) : PrimFloat.is_nan b = false -> PrimFloat.leb b b = true.
Proof.
  unfold PrimFloat.is_nan. rewrite eqb_spec, leb_spec. unfold SFeqb, SFleb.
  destruct (SFcompare _ _) as [[| |]|]; try discriminate; reflexivity.
Qed.

Lemma ltb_leb (a b : float) : PrimFloat.ltb a b = true -> PrimFloat.leb a b = true.
Proof.
  rewrite ltb_spec, leb_spec. unfold SFltb, SFleb.
  destruct (SFcompare _ _) as [[| |]|]; try discriminate; reflexivity.
Qed.

Lemma not_ltb_leb (a b : float) :
  PrimFloat.is_nan a = false -> PrimFloat.is_nan b = false ->
  PrimFloat.ltb b a = false -> PrimFloat.leb a b = true.
Proof.
  unfold PrimFloat.is_nan. rewrite !eqb_spec, ltb_spec, leb_spec.
  unfold SFeqb, SFltb, SFleb. rewrite (SFcompare_swap (Prim2SF a) (Prim2SF b)).
  destruct (Prim2SF a) as [sa | sa | | sa ma ea], (Prim2SF b) as [sb | sb | | sb mb eb];
    try discriminate; intros _ _;
    destruct (SFcompare _ _) as [[| |]|] eqn:E; simpl; try reflexivity;
    try discriminate; simpl in E; try discriminate;
    destruct sa; discriminate.
Qed.

Lemma Math_min_upper (a b : float) :
  PrimFloat.is_nan b = false ->
  PrimFloat.is_nan (Math_min a b) = true \/ PrimFloat.leb (Math_min a b) b = true.
Proof.
  intros Hb. unfold Math_min. rewrite Hb, orb_false_r.
  destruct (PrimFloat.is_nan a) eqn:Ha; [left; reflexivity|]. right.
  destruct (PrimFloat.ltb a b) eqn:Hab; [apply ltb_leb; exact Hab|].
  destruct (PrimFloat.ltb b a) eqn:Hba; [apply leb_refl; exact Hb|].
  destruct (PrimFloat.get_sign a);
    [apply not_ltb_leb; assumption | apply leb_refl; exact Hb].
Qed.

(** What the handler does guarantee: the upper clamp.  The width it writes
    is never above 100; it is NaN or at most 100. *)
Lemma updateProgress_upper_clamp (body : Dom.node) (v : viewport) (ticking : bool)
      (x : float) :
  fst (updateProgress body v ticking) = Some x ->
  PrimFloat.is_nan x = true \/ PrimFloat.leb x 100%float = true.
Proof.
  unfold updateProgress.
  destruct (Dom.getElementById _ _); simpl; [|discriminate].
  intros H. injection H as <-. apply Math_min_upper. reflexivity.
Qed.

(** C1, at a document exactly as high as the viewport: [scrollHeight] and
    [innerHeight] are both 600 and [pageYOffset] is 0.  The handler divides
    0 by 0 and writes NaN, which is neither 0 nor in the range from 0 to 100. *)
Theorem updateProgress_zero_height_is_NaN :
  updateProgress (createProgressBar Samples.post) Samples.zeroHeight true
  = (Some PrimFloat.nan, false)
  /\ in_range PrimFloat.nan = false
  /\ PrimFloat.eqb PrimFloat.nan 0%float = false.
Proof. repeat split. Qed.

(** The bar is not clamped from below either: scrolled 50 above the top of
    a page of height 1600 in a viewport of 600, the handler writes -5. *)
Example updateProgress_overscroll_negative :
  fst (updateProgress (createProgressBar Samples.post)
         {| pageYOffset := (-50)%float; scrollHeight := 1600%float;
            innerHeight := 600%float |} false)
  = Some (-5)%float.
Proof. reflexivity. Qed.

End Progress.

(** ** Smooth scrolling *)

Section Scroll.
Import SmoothScroll.





End Scroll.

(** ** Copying a section link *)

Section Copy.
Import LinkCopier.

Lemma textarea_removed (b : Dom.node) (x : Dom.node) :
  Dom.update (Dom.appendChild b [] x) []
    (fun n => match n with
              | Dom.Elem t i c a ks => Dom.Elem t i c a (removelast ks)
              | Dom.Text _ => n
              end) = b.
Proof.
  destruct b as [d | t i c a ks]; simpl; [reflexivity|].
  rewrite removelast_last. reflexivity.
Qed.

Lemma innerHTML_set (b : Dom.node) (button : Dom.path) (icon : jsstring)
      (t i : jsstring) (c : list jsstring) (a : list (jsstring * jsstring))
      (ks : list Dom.node) :
  Dom.get b button = Some (Dom.Elem t i c a ks) ->
  innerHTML (Dom.setTextContent b button icon) button = icon.
Proof.
  intros H. unfold innerHTML, Dom.setTextContent.
  rewrite (get_update _ _ _ _ H).
  destruct icon; simpl; [reflexivity | rewrite app_nil_r; reflexivity].
Qed.

Lemma jseqb_refl (s : jsstring) : jseqb s s = true.
Proof. apply jseqb_eq. reflexivity. Qed.

(** C4 does not hold as stated: the clipboard promise is rejected and
    [execCommand] answers false, so nothing was copied, and the button
    shows the success icon all the same. *)
Lemma feedback_after_both_copies_fail :
  let env := Samples.noClipboard (Returned false) in
  let pg := Samples.copyPage (addCopyLinks Samples.post) in
  both_fail env = true
  /\ clipboard (copyLink env (lit "setup") Samples.setupButton pg) = None
  /\ feedback_shown pg Samples.setupButton = false
  /\ feedback_shown (copyLink env (lit "setup") Samples.setupButton pg)
       Samples.setupButton = true.
Proof. repeat split. Qed.

(** Appending an element without text to the body changes no [innerHTML]. *)
Lemma innerHTML_appended (b x : Dom.node) (button : Dom.path) (n : Dom.node) :
  Dom.textContent x = [] ->
  Dom.get b button = Some n ->
  innerHTML (Dom.appendChild b [] x) button = innerHTML b button.
Proof.
  intros Hx Hn. unfold innerHTML.
  destruct b as [d | t i c a ks]; [reflexivity|].
  destruct button as [|j q].
  - cbn [Dom.appendChild Dom.update Dom.get Dom.textContent].
    rewrite flat_map_app. cbn [flat_map]. rewrite Hx, !app_nil_r. reflexivity.
  - cbn [Dom.appendChild Dom.update Dom.get Dom.childNodes] in *.
    destruct (nth_error ks j) as [k|] eqn:Hk; [|discriminate].
    rewrite nth_error_app1 by (apply nth_error_Some; congruence).
    rewrite Hk. reflexivity.
Qed.

(** C4, as amended: when the clipboard write fails, the fallback copy is
    attempted with the same URL; and whenever [execCommand] returns, also
    when it returns false, the success icon is put on the button.  Only
    when the fallback throws is no feedback shown: the button keeps what
    it showed, no timer is set and the clipboard is as it was. *)
Theorem copyLink_fallback (env : platform) (headingId : jsstring)
        (button : Dom.path) (pg : page)
        (t i : jsstring) (c : list jsstring) (a : list (jsstring * jsstring))
        (ks : list Dom.node) :
  writeText env = false ->
  Dom.get (body pg) button = Some (Dom.Elem t i c a ks) ->
  let url := (origin env ++ pathname env ++ lit "#" ++ headingId)%list in
  calls (copyLink env headingId button pg)
  = (calls pg ++ [CallWriteText url; CallExecCommand url])%list
  /\ (forall ok, execCommand env = Returned ok ->
        feedback_shown (copyLink env headingId button pg) button = true
        /\ clipboard (copyLink env headingId button pg)
           = if ok then Some url else clipboard pg)
  /\ (execCommand env = Threw ->
        innerHTML (body (copyLink env headingId button pg)) button
        = innerHTML (body pg) button
        /\ feedback_shown (copyLink env headingId button pg) button
           = feedback_shown pg button
        /\ timers (copyLink env headingId button pg) = timers pg
        /\ clipboard (copyLink env headingId button pg) = clipboard pg).
Proof.
  intros Hw Hb url. unfold copyLink, fallbackCopy. fold url.
  rewrite Hw. cbn [body calls clipboard timers].
  destruct (execCommand env) as [ok|] eqn:He; cbn [body calls clipboard timers].
  - rewrite textarea_removed. unfold showCopyFeedback, feedback_shown.
    cbn [body calls clipboard timers].
    rewrite <- app_assoc. split; [reflexivity|]. split; [|discriminate].
    intros ok' Hok. injection Hok as <-.
    rewrite (innerHTML_set _ _ _ _ _ _ _ _ Hb). split; [apply jseqb_refl | reflexivity].
  - rewrite <- app_assoc. split; [reflexivity|]. split; [discriminate|].
    intros _. unfold feedback_shown. cbn [body].
    rewrite (innerHTML_appended (body pg) (textArea url) button _ eq_refl Hb).
    repeat split; reflexivity.
Qed.

Lemma copyLink_fallback_witness :
  let pg := Samples.copyPage (addCopyLinks Samples.post) in
  calls (copyLink (Samples.noClipboard (Returned true)) (lit "setup")
           Samples.setupButton pg)
  = [CallWriteText (lit "https://example.org/blog/post#setup");
     CallExecCommand (lit "https://example.org/blog/post#setup")]
  /\ innerHTML (body (copyLink (Samples.noClipboard Threw) (lit "setup")
                        Samples.setupButton pg)) Samples.setupButton
     = linkIcon.
Proof.
  split.
  - exact (proj1 (copyLink_fallback (Samples.noClipboard (Returned true))
                  (lit "setup") Samples.setupButton
                  (Samples.copyPage (addCopyLinks Samples.post))
                  (lit "button") [] [lit "copy-link"]
                  [(lit "aria-label", lit "Copy link to this section")]
                  [Dom.Text linkIcon] eq_refl eq_refl)).
  - exact (proj1 (proj2 (proj2 (copyLink_fallback (Samples.noClipboard Threw)
                  (lit "setup") Samples.setupButton
                  (Samples.copyPage (addCopyLinks Samples.post))
                  (lit "button") [] [lit "copy-link"]
                  [(lit "aria-label", lit "Copy link to this section")]
                  [Dom.Text linkIcon] eq_refl eq_refl)) eq_refl)).
Defined.

End Copy.

(** ** Copy buttons on headings *)

Section Decoration.
Import Dom LinkCopier.

Lemma decorated_refl (b : node) : decorated b b.
Proof. split; intros q n H; [|left]; eauto. Qed.

Lemma decorated_trans (b b' b'' : node) :
  decorated b b' -> decorated b' b'' -> decorated b b''.
Proof.
  intros [F1 B1] [F2 B2]. split.
  - intros q n H. destruct (F1 q n H) as (n' & H' & L').
    destruct (F2 q n' H') as (n'' & H'' & L''). exists n''. split; [exact H''|].
    congruence.
  - intros q n'' H. destruct (B2 q n'' H) as [(n' & H' & L') | Hr]; [|right; exact Hr].
    destruct (B1 q n' H') as [(n & Hn & L) | (r & n0 & Hr & L)]; [left | right].
    + exists n. split; [exact Hn | congruence].
    + exists r, n0. split; [exact Hr | congruence].
Qed.

Lemma decorate_cases (b : node) (h : path) :
  decorate b h = b \/ decorate b h = appendChild b h copyLinkButton.
Proof.
  unfold decorate. destruct (get b h); [|left; reflexivity].
  destruct (_ && _); [right | left]; reflexivity.
Qed.

Lemma decorate_decorated (b : node) (h : path) : decorated b (decorate b h).
Proof.
  destruct (decorate_cases b h) as [-> | ->]; [apply decorated_refl|].
  split.
  - intros q n. apply appendChild_keeps.
  - intros q n' H. destruct (appendChild_adds _ _ _ _ _ H) as [Hl | (r & Hr)];
      [left; exact Hl | right; eauto].
Qed.

Lemma fold_decorated (hs : list path) (b : node) :
  decorated b (fold_left decorate hs b).
Proof.
  revert b. induction hs as [|h hs IH]; intros b; [apply decorated_refl|].
  simpl. apply (decorated_trans b (decorate b h)); [apply decorate_decorated | apply IH].
Qed.

(** Below the element at [h] there is an element that matches [s]. *)
Lemma querySelectorIn_finds (b : node) (h r : path) (s : simple) (n : node) :
  r <> [] -> get b (h ++ r) = Some n -> matches_simple s n = true ->
  querySelectorIn b h [Simple s] <> None.
Proof.
  intros Hr Hget Hm. unfold querySelectorIn, querySelectorAllIn.
  rewrite get_app in Hget. destruct (get b h) as [hn|] eqn:Hh; [|discriminate].
  assert (Hin : In (h ++ r)
                   (filter (matches b [Simple s]) (map (app h) (descendants hn)))).
  { apply filter_In. split.
    - apply in_map. apply (In_descendants r hn n Hr Hget).
      destruct n; [discriminate Hm | discriminate].
    - unfold matches. rewrite get_app, Hh, Hget. simpl. rewrite Hm. reflexivity. }
  destruct (filter _ _); [contradiction Hin | discriminate].
Qed.

Lemma querySelectorIn_found (b : node) (h : path) (s : simple) :
  querySelectorIn b h [Simple s] <> None ->
  exists r n, r <> [] /\ get b (h ++ r) = Some n /\ matches_simple s n = true.
Proof.
  unfold querySelectorIn, querySelectorAllIn. intros H.
  destruct (get b h) as [hn|] eqn:Hh; [|contradiction H; reflexivity].
  destruct (filter _ _) as [|q l] eqn:E; [contradiction H; reflexivity|].
  assert (Hin : In q (filter (matches b [Simple s]) (map (app h) (descendants hn))))
    by (rewrite E; left; reflexivity).
  apply filter_In in Hin as [Hin Hm].
  apply in_map_iff in Hin as (r & <- & Hr).
  unfold matches in Hm. destruct (get b (h ++ r)) as [n|] eqn:Hn; [|discriminate].
  exists r, n. split; [|split; [exact Hn|]].
  - exact (proj1 (Forall_forall _ _) (descendants_nonempty hn) r Hr).
  - simpl in Hm. rewrite orb_false_r in Hm. exact Hm.
Qed.

(** A copy button below [h] stays there when the page is decorated further. *)
Lemma decorated_keeps_button (b b' : node) (h : path) :
  decorated b b' ->
  querySelectorIn b h copySelector <> None ->
  querySelectorIn b' h copySelector <> None.
Proof.
  intros [F _] H. destruct (querySelectorIn_found b h _ H) as (r & n & Hr & Hn & Hm).
  destruct (F _ _ Hn) as (n' & Hn' & L).
  apply (querySelectorIn_finds b' h r (ByClass (lit "copy-link")) n' Hr Hn').
  rewrite (matches_simple_label (ByClass (lit "copy-link")) n' n I L). exact Hm.
Qed.

Lemma decorate_puts_button (b : node) (h : path) (hn : node) :
  get b h = Some hn -> truthy (nodeId hn) = true ->
  querySelectorIn (decorate b h) h copySelector <> None.
Proof.
  intros Hh Hid. unfold decorate. rewrite Hh, Hid. simpl.
  fold copySelector.
  destruct (querySelectorIn b h copySelector) eqn:E; [rewrite E; discriminate|].
  destruct hn as [d | t i c a ks]; [discriminate Hid|].
  apply (querySelectorIn_finds _ h [List.length ks] (ByClass (lit "copy-link"))
           copyLinkButton); [discriminate | | reflexivity].
  unfold appendChild. rewrite (get_update_below _ _ _ _ _ Hh). simpl.
  rewrite nth_error_app2 by apply Nat.le_refl. rewrite Nat.sub_diag. reflexivity.
Qed.

(** After the loop every heading of the list that has an id carries a button. *)
Lemma fold_puts_buttons (hs : list path) (b : node) (h : path) (hn : node) :
  In h hs -> get b h = Some hn -> truthy (nodeId hn) = true ->
  querySelectorIn (fold_left decorate hs b) h copySelector <> None.
Proof.
  revert b hn. induction hs as [|h0 hs IH]; intros b hn Hin Hh Hid; [contradiction Hin|].
  simpl. destruct Hin as [-> | Hin].
  - apply (decorated_keeps_button (decorate b h)); [apply fold_decorated|].
    apply (decorate_puts_button b h hn Hh Hid).
  - destruct (proj1 (decorate_decorated b h0) h hn Hh) as (hn' & Hh' & L).
    apply (IH _ hn' Hin Hh'). rewrite (nodeId_label _ _ L). exact Hid.
Qed.

Lemma ancestors_exists (f : node -> bool) (root : node) (p : path) :
  existsb f (ancestors root p) = true <->
  exists k n, k < List.length p /\ get root (firstn k p) = Some n /\ f n = true.
Proof.
  unfold ancestors. rewrite existsb_exists. split.
  - intros (n & Hin & Hf). apply in_flat_map in Hin as (k & Hk & Hn).
    apply in_seq in Hk. destruct (get root (firstn k p)) as [n0|] eqn:E;
      [|contradiction Hn].
    destruct Hn as [<- | []]. exists k, n0. repeat split; [lia | exact E | exact Hf].
  - intros (k & n & Hk & Hn & Hf). exists n. split; [|exact Hf].
    apply in_flat_map. exists k. split; [apply in_seq; lia|].
    rewrite Hn. left. reflexivity.
Qed.

Lemma button_nodes (r : path) (n : node) :
  get copyLinkButton r = Some n -> n = copyLinkButton \/ n = Text linkIcon.
Proof.
  destruct r as [|[|j] [|k r]]; simpl; intros H;
    try (injection H as <-; auto); try discriminate.
  - destruct k; discriminate.
  - destruct j; discriminate.
  - destruct j; discriminate.
Qed.

(** Decorating a page makes no new headings. *)
Lemma headings_from_before (b b' : node) (h : path) :
  decorated b b' ->
  matches b' headingSelector h = true ->
  matches b headingSelector h = true
  /\ exists n n', get b h = Some n /\ get b' h = Some n' /\ label n = label n'.
Proof.
  intros [_ B] Hm. unfold matches, headingSelector in *.
  destruct (get b' h) as [n'|] eqn:Hn'; [|discriminate].
  cbn [existsb] in *. rewrite orb_false_r in *.
  set (md := ByClass (lit "markdown-section")) in *.
  set (h2 := ByTag (lit "h2")) in *. set (h3 := ByTag (lit "h3")) in *.
  assert (Hanc : existsb (matches_simple md) (ancestors b' h) = true ->
                 existsb (matches_simple md) (ancestors b h) = true).
  { intros H. apply ancestors_exists in H as (k & m' & Hk & Hget & Hf).
    apply ancestors_exists. exists k.
    destruct (B _ _ Hget) as [(m & Hm0 & L) | (r & m0 & Hr & L)].
    - exists m. repeat split; [exact Hk | exact Hm0|].
      rewrite (matches_simple_label md m m' I L). exact Hf.
    - exfalso. rewrite <- (matches_simple_label md m0 m' I L) in Hf.
      destruct (button_nodes _ _ Hr) as [-> | ->]; discriminate Hf. }
  destruct (B _ _ Hn') as [(n & Hn & L) | (r & n0 & Hr & L)].
  - rewrite Hn. split; [|eauto].
    rewrite (matches_simple_label h2 n n' I L), (matches_simple_label h3 n n' I L).
    apply orb_true_iff in Hm as [Hm | Hm]; apply andb_true_iff in Hm as [Ht Ha];
      rewrite Ht, (Hanc Ha); [reflexivity | apply orb_true_r].
  - exfalso.
    rewrite <- (matches_simple_label h2 n0 n' I L) in Hm.
    rewrite <- (matches_simple_label h3 n0 n' I L) in Hm.
    destruct (button_nodes _ _ Hr) as [-> | ->]; discriminate Hm.
Qed.

Lemma fold_fixed (hs : list path) (b : node) :
  (forall h, In h hs -> decorate b h = b) -> fold_left decorate hs b = b.
Proof.
  induction hs as [|h hs IH]; intros H; [reflexivity|].
  simpl. rewrite (H h (or_introl eq_refl)). apply IH.
  intros h' Hin. apply H. right. exact Hin.
Qed.

(** [addCopyLinks] skips the headings that carry a button already: a second
    run changes nothing, on any page. *)
Lemma addCopyLinks_idempotent (b : node) :
  addCopyLinks (addCopyLinks b) = addCopyLinks b.
Proof.
  unfold addCopyLinks at 1. apply fold_fixed. intros h Hin.
  apply filter_In in Hin as [_ Hm].
  assert (Hdec : decorated b (addCopyLinks b)) by apply fold_decorated.
  destruct (headings_from_before b _ h Hdec Hm) as (Hm0 & n & n' & Hn & Hn' & L).
  unfold decorate. rewrite Hn'.
  destruct (truthy (nodeId n')) eqn:Hid; [|reflexivity].
  assert (Hin0 : In h (querySelectorAll b headingSelector)).
  { apply filter_In. split; [|exact Hm0].
    destruct h as [|i h]; [left; reflexivity|]. right.
    apply (In_descendants (i :: h) b n); [discriminate | exact Hn|].
    destruct n; [|discriminate]. destruct n'; discriminate. }
  rewrite (nodeId_label _ _ (eq_sym L)) in Hid.
  pose proof (fold_puts_buttons _ b h n Hin0 Hn Hid) as Hb.
  fold (addCopyLinks b) in Hb. fold copySelector.
  destruct (querySelectorIn (addCopyLinks b) h copySelector);
    [reflexivity | contradiction Hb; reflexivity].
Qed.

End Decoration.

(** ** Elements created once *)

Section Singletons.
Import Dom ThemeManager.

(** [createProgressBar] never looks for a bar that is already there: each
    call adds one. *)
Lemma createProgressBar_adds_one (t i : jsstring) (c : list jsstring)
      (a : list (jsstring * jsstring)) (ks : list node) :
  count progressMarker (ReadingProgress.createProgressBar (Elem t i c a ks))
  = S (count progressMarker (Elem t i c a ks)).
Proof.
  unfold ReadingProgress.createProgressBar, appendChild. simpl update.
  rewrite count_append. change (count progressMarker ReadingProgress.progressBar) with 1.
  apply Nat.add_1_r.
Qed.

(** [createThemeToggle] looks for the toggle first: a second run changes
    nothing, on any page. *)
Lemma addToggle_idempotent (m : manager) : addToggle (addToggle m) = addToggle m.
Proof.
  unfold addToggle at 2 3.
  destruct (querySelector (body (page m)) [Simple (ByClass (lit "app-nav"))])
    as [nav|] eqn:Hnav.
  2: { unfold addToggle. simpl. rewrite Hnav. reflexivity. }
  destruct (getElementById (body (page m)) (lit "theme-toggle")) as [tg0|] eqn:Htg0.
  { unfold addToggle. simpl. rewrite Hnav, Htg0. reflexivity. }
  set (b := body (page m)) in *.
  destruct (querySelector_found b _ nav Hnav) as (nn & Hnn & Hnm).
  destruct nn as [d | t i c a ks]; [discriminate Hnm|].
  set (b1 := appendChild b nav toggleButton).
  assert (Hnav1 : get b1 nav = Some (Elem t i c a (ks ++ [toggleButton]))).
  { unfold b1, appendChild. rewrite (get_update _ _ _ _ Hnn). reflexivity. }
  assert (Hnew : get b1 (nav ++ [List.length ks]) = Some toggleButton).
  { rewrite get_app, Hnav1. simpl.
    rewrite nth_error_app2 by apply Nat.le_refl. rewrite Nat.sub_diag. reflexivity. }
  destruct (getElementById b1 (lit "theme-toggle")) as [tg|] eqn:Htg.
  2: { exfalso.
       exact (querySelector_finds b1 (ById (lit "theme-toggle")) _ _ Hnew eq_refl Htg). }
  destruct (querySelector_found b1 _ tg Htg) as (tn & Htn & Htm).
  unfold updateToggleButton. cbn [body page setBody currentTheme retryPending].
  fold b1. rewrite Htg.
  set (icon := if jseqb (currentTheme m) dark then sunIcon else moonIcon).
  set (aria := if jseqb (currentTheme m) dark then lit "Switch to light theme"
               else lit "Switch to dark theme").
  set (b2 := setAttribute (setTextContent b1 tg icon) tg (lit "aria-label") aria).
  assert (Hmarks : forall q, ~ strictly_below q tg ->
                     option_map label (get b2 q) = option_map label (get b1 q)).
  { intros q Hq. unfold b2.
    rewrite (setAttribute_label _ tg q _ _ Hq). apply setTextContent_label. exact Hq. }
  assert (Htg2 : getElementById b2 (lit "theme-toggle") <> None).
  { apply (querySelector_transfer b1 b2 (ById (lit "theme-toggle")) tg tn I Htn Htm).
    apply Hmarks. apply not_below_self. }
  assert (Hnav2 : querySelector b2 [Simple (ByClass (lit "app-nav"))] <> None).
  { apply (querySelector_transfer b1 b2 (ByClass (lit "app-nav")) nav _ I Hnav1 Hnm).
    apply Hmarks. intros Hbelow.
    apply (querySelector_transfer b1 b (ById (lit "theme-toggle")) tg tn I Htn Htm);
      [|exact Htg0].
    symmetry. apply appendChild_label.
    apply strictly_below_asym. exact Hbelow. }
  unfold addToggle. cbn [body page setBody currentTheme retryPending].
  destruct (querySelector b2 [Simple (ByClass (lit "app-nav"))]);
    [|contradiction Hnav2; reflexivity].
  destruct (getElementById b2 (lit "theme-toggle"));
    [|contradiction Htg2; reflexivity].
  reflexivity.
Qed.

(** C3, on the page [Samples.post]: run twice, the routines for the theme
    toggle and for the copy buttons leave what one run leaves (one toggle,
    one button per heading that has an id), but [createProgressBar] leaves
    two progress bars and [generateTOC] two tables of contents.  On every
    body two runs of [createProgressBar] add two bars, and on every page a
    second run of [createThemeToggle] or of [addCopyLinks] changes
    nothing. *)
Theorem second_run_duplicates_bar_and_toc :
  (let m := ThemeManager.constructor (Samples.world None false Samples.post) in
   count toggleMarker (ThemeManager.body (ThemeManager.page m)) = 1
   /\ count toggleMarker
        (ThemeManager.body
           (ThemeManager.page (ThemeManager.createThemeToggle m))) = 1)
  /\ (count copyMarker (LinkCopier.addCopyLinks Samples.post) = 1
      /\ count copyMarker
           (LinkCopier.addCopyLinks (LinkCopier.addCopyLinks Samples.post)) = 1)
  /\ (count progressMarker (ReadingProgress.createProgressBar Samples.post) = 1
      /\ count progressMarker
           (ReadingProgress.createProgressBar
              (ReadingProgress.createProgressBar Samples.post)) = 2)
  /\ (count tocMarker (TableOfContents.generateTOC Samples.post) = 1
      /\ count tocMarker
           (TableOfContents.generateTOC
              (TableOfContents.generateTOC Samples.post)) = 2)
  /\ (forall t i c a ks,
        count progressMarker
          (ReadingProgress.createProgressBar
             (ReadingProgress.createProgressBar (Elem t i c a ks)))
        = 2 + count progressMarker (Elem t i c a ks))
  /\ (forall m,
        ThemeManager.createThemeToggle (ThemeManager.createThemeToggle m)
        = ThemeManager.createThemeToggle m)
  /\ (forall b,
        LinkCopier.addCopyLinks (LinkCopier.addCopyLinks b)
        = LinkCopier.addCopyLinks b).
Proof.
  repeat split.
  - intros t i c a ks.
    unfold ReadingProgress.createProgressBar at 1. unfold appendChild.
    simpl update at 1.
    change (update (Elem t i c a ks) [] ?f) with (f (Elem t i c a ks)).
    unfold ReadingProgress.createProgressBar, appendChild. simpl update.
    rewrite !count_append.
    change (count progressMarker ReadingProgress.progressBar) with 1. lia.
  - exact addToggle_idempotent.
  - exact addCopyLinks_idempotent.
Qed.

End Singletons.

(** ** Where the table of contents goes *)

Section Placement.
Import Dom TableOfContents.

Lemma get_parent_element (n : node) (parent : path) (pos : nat) (k : node) :
  get n (parent ++ [pos]) = Some k ->
  exists t i c a ks,
    get n parent = Some (Elem t i c a ks) /\ nth_error ks pos = Some k.
Proof.
  rewrite get_app. destruct (get n parent) as [[d|t i c a ks]|]; simpl;
    try (destruct pos; discriminate).
  destruct (nth_error ks pos) as [k'|] eqn:E; [|discriminate].
  intros H. injection H as ->. eauto 10.
Qed.

Lemma get_inserted (b : node) (parent : path) (toc next : node) (pos : nat) :
  get b (parent ++ [S pos]) = Some next ->
  get (insertBefore b parent toc (S pos)) (parent ++ [pos]) = get b (parent ++ [pos])
  /\ get (insertBefore b parent toc (S pos)) (parent ++ [S pos]) = Some toc
  /\ get (insertBefore b parent toc (S pos)) (parent ++ [S (S pos)]) = Some next.
Proof.
  intros H. destruct (get_parent_element _ _ _ _ H) as (t & i & c & a & ks & Hp & Hn).
  assert (Hlen : S pos <= List.length ks).
  { apply Nat.lt_le_incl. apply nth_error_Some. rewrite Hn. discriminate. }
  unfold insertBefore. rewrite !(get_update_below _ _ _ _ _ Hp).
  rewrite (get_app b parent [pos]), Hp. cbn [get childNodes].
  rewrite (nth_error_before_inserted ks toc (S pos) pos (Nat.lt_succ_diag_r pos) Hlen).
  rewrite (nth_error_inserted ks toc (S pos) Hlen).
  rewrite (nth_error_after_inserted ks toc (S pos) Hlen), Hn.
  repeat split.
Qed.

(** C6 does not hold as stated: the article of
    [Samples.headingsThenParagraph] has three headings and a paragraph, but
    the paragraph is the last child, nothing follows it, and no table of
    contents is inserted anywhere. *)
Lemma no_toc_after_last_paragraph :
  let body := Samples.headingsThenParagraph in
  querySelector body contentSelector = Some [1; 0]
  /\ List.length (querySelectorAllIn body [1; 0] headingSelector) = 3
  /\ querySelectorIn body [1; 0] [Simple (ByTag (lit "p"))] = Some [1; 0; 3]
  /\ get body [1; 0; 4] = None
  /\ generateTOC body = body
  /\ count (ByClass (lit "table-of-contents")) (generateTOC body) = 0.
Proof. repeat split. Qed.

(** C6, as amended: on a content region with at least three level-2/3
    headings the target is the first paragraph when there is one, else the
    first level-1/2 heading.  When there is a target and a node follows it
    under the same parent, the table of contents is inserted immediately
    after the target, before that node.  When there is no target, or the
    target is the last child of its parent, nothing is inserted: the
    result is the body with the missing heading identifiers assigned. *)
Theorem generateTOC_placement (body : node) (content : path) :
  querySelector body contentSelector = Some content ->
  3 <= List.length (querySelectorAllIn body content headingSelector) ->
  let b1 := fst (buildTOC body content) in
  let toc := snd (buildTOC body content) in
  insertAfter b1 content
  = match querySelectorIn b1 content [Simple (ByTag (lit "p"))] with
    | Some firstP => Some firstP
    | None => querySelectorIn b1 content
                [Simple (ByTag (lit "h1")); Simple (ByTag (lit "h2"))]
    end
  /\ (forall target, insertAfter b1 content = Some target ->
        exists parent pos, target = parent ++ [pos])
  /\ (forall parent pos next,
        insertAfter b1 content = Some (parent ++ [pos]) ->
        get b1 (parent ++ [S pos]) = Some next ->
        generateTOC body = insertBefore b1 parent toc (S pos)
        /\ get (generateTOC body) (parent ++ [pos]) = get b1 (parent ++ [pos])
        /\ get (generateTOC body) (parent ++ [S pos]) = Some toc
        /\ get (generateTOC body) (parent ++ [S (S pos)]) = Some next)
  /\ (forall parent pos,
        insertAfter b1 content = Some (parent ++ [pos]) ->
        get b1 (parent ++ [S pos]) = None ->
        generateTOC body = b1)
  /\ (insertAfter b1 content = None -> generateTOC body = b1).
Proof.
  intros Hc Hlen b1 toc.
  assert (Hgen : generateTOC body
                 = match insertAfter b1 content with
                   | Some target =>
                       match unsnoc target with
                       | Some (parent, pos) =>
                           match get b1 (parent ++ [S pos]) with
                           | Some _ => insertBefore b1 parent toc (S pos)
                           | None => b1
                           end
                       | None => b1
                       end
                   | None => b1
                   end).
  { unfold generateTOC. fold contentSelector. rewrite Hc.
    fold headingSelector.
    destruct (Nat.ltb_spec (List.length (querySelectorAllIn body content headingSelector)) 3)
      as [Hlt | _]; [lia|].
    subst b1 toc. destruct (buildTOC body content) as [b t]. reflexivity. }
  assert (Hsnoc : forall parent pos, unsnoc (parent ++ [pos]) = Some (parent, pos)).
  { intros parent pos. induction parent as [|i parent IH]; simpl; [reflexivity|].
    rewrite IH. reflexivity. }
  split; [reflexivity|]. split; [|split; [|split]].
  - intros target. unfold insertAfter.
    destruct (querySelectorIn b1 content [Simple (ByTag (lit "p"))]) eqn:Hp.
    + intros H. injection H as <-. exact (querySelectorIn_below _ _ _ _ Hp).
    + apply querySelectorIn_below.
  - intros parent pos next Ht Hnext.
    rewrite Hgen, Ht, Hsnoc, Hnext.
    split; [reflexivity|]. apply (get_inserted _ _ _ _ _ Hnext).
  - intros parent pos Ht Hnext. rewrite Hgen, Ht, Hsnoc, Hnext. reflexivity.
  - intros Ht. rewrite Hgen, Ht. reflexivity.
Qed.

Lemma generateTOC_placement_witness :
  get (generateTOC Samples.post) [1; 0; 1] = get Samples.post [1; 0; 1]
  /\ get (generateTOC Samples.post) [1; 0; 2]
     = Some (snd (buildTOC Samples.post [1; 0]))
  /\ get (generateTOC Samples.post) [1; 0; 3]
     = Some (Samples.el "h2" "setup" "Setup").
Proof.
  exact (proj2 (proj1 (proj2 (proj2 (generateTOC_placement Samples.post [1; 0]
                                       eq_refl (le_n 3))))
                  [1; 0] 1 (Samples.el "h2" "setup" "Setup") eq_refl eq_refl)).
Defined.

End Placement.

(** * More properties *)

(** ** Slugs *)

Section Slugs.
Local Open Scope N_scope.

Lemma id_unit_slug (c : N) : id_unit c -> slug_unit c = true.
Proof.
  intros [Hk Hs]. unfold kept, slug_unit in *.
  destruct (c =? 32) eqn:E.
  - apply N.eqb_eq in E. subst c. discriminate Hs.
  - rewrite orb_false_r in Hk. exact Hk.
Qed.

(** A slug is made of a-z, 0-9 and hyphens only, and no two hyphens of a
    slug are neighbours. *)
Theorem generateId_alphabet (text : jsstring) :
  forallb slug_unit (TableOfContents.generateId text) = true
  /\ single_hyphens (TableOfContents.generateId text) = true.
Proof.
  rewrite generateId_hyphenated. split.
  - apply forallb_forall. intros c Hc.
    apply id_unit_slug. exact (proj1 (Forall_forall _ _) (hyphenated_units text) c Hc).
  - apply (proj1 (replace_hyphens_single _)).
Qed.

Lemma replace_runs_head (p : N -> bool) (r : N) (s : jsstring) (c : N) (t : jsstring) :
  s = c :: t -> p c = true -> exists u, replace_runs p r s = r :: u.
Proof.
  revert c t. induction s as [|a s IH]; intros c t Hs Hc; [discriminate|].
  injection Hs as -> ->. simpl. rewrite Hc.
  destruct t as [|c' t']; [eauto|].
  destruct (p c') eqn:Hc'; [apply (IH c' t' eq_refl Hc') | eauto].
Qed.

Lemma replace_runs_last (p : N -> bool) (r : N) (s : jsstring) (c : N) :
  p c = true -> exists u, replace_runs p r (s ++ [c]) = u ++ [r].
Proof.
  intros Hc. induction s as [|a s [u IH]]; simpl.
  - rewrite Hc. exists []. reflexivity.
  - destruct (p a).
    + destruct (s ++ [c]) as [|c' t'] eqn:E; [destruct s; discriminate|].
      destruct (p c'); [exists u; exact IH | exists (r :: u); rewrite IH; reflexivity].
    + exists (a :: u). rewrite IH. reflexivity.
Qed.

Lemma edge_unit (c : N) : c = 32 \/ c = 45 -> lower_unit c = [c] /\ kept c = true.
Proof. intros [-> | ->]; split; reflexivity. Qed.

(** The final [trim] of [generateId] removes nothing: a text that begins
    (ends) with a space or a hyphen has a slug that begins (ends) with a
    hyphen. *)
Theorem generateId_keeps_edge_hyphens (c : N) (text : jsstring) :
  c = 32 \/ c = 45 ->
  (exists rest, TableOfContents.generateId (c :: text) = 45 :: rest)
  /\ (exists rest, TableOfContents.generateId (text ++ [c]) = rest ++ [45]).
Proof.
  intros Hc. destruct (edge_unit c Hc) as [Hl Hk]. rewrite !generateId_hyphenated.
  unfold hyphenated, toLowerCase. split.
  - simpl flat_map. rewrite Hl. simpl. rewrite Hk.
    set (s := filter kept (flat_map lower_unit text)).
    assert (H1 : exists u, replace_runs is_space 45 (c :: s) = 45 :: u).
    { destruct Hc as [-> | ->].
      - apply (replace_runs_head is_space 45 _ 32 s eq_refl eq_refl).
      - simpl. eauto. }
    destruct H1 as [u ->].
    apply (replace_runs_head is_hyphen 45 _ 45 u eq_refl eq_refl).
  - rewrite flat_map_app. simpl flat_map. rewrite Hl, filter_app. simpl. rewrite Hk.
    set (s := filter kept (flat_map lower_unit text)).
    assert (H1 : exists u, replace_runs is_space 45 (s ++ [c]) = u ++ [45]).
    { destruct Hc as [-> | ->].
      - apply replace_runs_last. reflexivity.
      - induction s as [|a s [u IH]]; simpl; [exists []; reflexivity|].
        destruct (is_space a).
        + destruct (s ++ [45]) as [|c' t'] eqn:E; [destruct s; discriminate|].
          destruct (is_space c'); [exists u; exact IH|].
          exists (45 :: u). rewrite IH. reflexivity.
        + exists (a :: u). rewrite IH. reflexivity. }
    destruct H1 as [u ->]. apply replace_runs_last. reflexivity.
Qed.

Lemma generateId_keeps_edge_hyphens_witness :
  (exists rest, TableOfContents.generateId (lit " Hello ") = 45 :: rest)
  /\ (exists rest, TableOfContents.generateId (lit " Hello ") = rest ++ [45]).
Proof.
  split.
  - exact (proj1 (generateId_keeps_edge_hyphens 32 (lit "Hello ")
                    (or_introl eq_refl))).
  - exact (proj2 (generateId_keeps_edge_hyphens 32 (lit " Hello")
                    (or_introl eq_refl))).
Defined.

Lemma replace_runs_nil (p : N -> bool) (r : N) (s : jsstring) :
  replace_runs p r s = [] <-> s = [].
Proof.
  split; [|intros ->; reflexivity].
  induction s as [|a s IH]; [reflexivity|]. simpl.
  destruct (p a); [|discriminate].
  destruct s as [|c' t']; [discriminate|].
  destruct (p c'); [intros H; apply IH in H; discriminate | discriminate].
Qed.

Lemma vanishes_spec (c : N) :
  vanishes c = true <-> filter kept (lower_unit c) = [].
Proof.
  unfold vanishes, lower_unit.
  destruct ((65 <=? c) && (c <=? 90)) eqn:Hu.
  - rewrite andb_false_r. simpl.
    apply andb_true_iff in Hu as [Ha Hb]. apply N.leb_le in Ha, Hb.
    assert (Hk : kept (c + 32) = true).
    { unfold kept. apply orb_true_iff. left. apply orb_true_iff. left.
      apply orb_true_iff. left. apply andb_true_iff. split; apply N.leb_le; lia. }
    rewrite Hk. split; discriminate.
  - destruct (c =? 8490) eqn:H1.
    { rewrite andb_false_r. simpl. split; discriminate. }
    destruct (c =? 304) eqn:H2.
    { rewrite andb_false_r. simpl. split; discriminate. }
    simpl. rewrite !andb_true_r. destruct (kept c); simpl; split; try discriminate; reflexivity.
Qed.

(** The slug is empty exactly when no code unit of the text is a letter
    a-z or A-Z, a digit, a space, a hyphen, U+212A or U+0130: a heading
    written wholly in another script gets the empty identifier. *)
Theorem generateId_empty (text : jsstring) :
  TableOfContents.generateId text = [] <-> forallb vanishes text = true.
Proof.
  rewrite generateId_hyphenated. unfold hyphenated.
  rewrite !replace_runs_nil. unfold toLowerCase.
  induction text as [|c text IH]; simpl; [tauto|].
  rewrite filter_app, andb_true_iff, <- IH, vanishes_spec. split.
  - intros H. apply app_eq_nil in H. exact H.
  - intros [-> ->]. reflexivity.
Qed.

Lemma lower_unit_twice (c : N) : flat_map lower_unit (lower_unit c) = lower_unit c.
Proof.
  destruct ((65 <=? c) && (c <=? 90)) eqn:Hu.
  - assert (H : lower_unit c = [c + 32]) by (unfold lower_unit; rewrite Hu; reflexivity).
    rewrite H. apply andb_true_iff in Hu as [Ha Hb]. apply N.leb_le in Ha, Hb.
    simpl. unfold lower_unit.
    replace ((65 <=? c + 32) && (c + 32 <=? 90)) with false
      by (symmetry; apply andb_false_iff; right; apply N.leb_gt; lia).
    replace (c + 32 =? 8490) with false by (symmetry; apply N.eqb_neq; lia).
    replace (c + 32 =? 304) with false by (symmetry; apply N.eqb_neq; lia).
    reflexivity.
  - destruct (c =? 8490) eqn:H1.
    { unfold lower_unit at 2 3. rewrite Hu, H1. reflexivity. }
    destruct (c =? 304) eqn:H2.
    { unfold lower_unit at 2 3. rewrite Hu, H1, H2. reflexivity. }
    assert (H : lower_unit c = [c])
      by (unfold lower_unit; rewrite Hu, H1, H2; reflexivity).
    rewrite H. simpl. rewrite H. reflexivity.
Qed.

(** The slug of a text is the slug of its lower case: headings that differ
    only in the case of their letters get the same identifier. *)
Theorem generateId_ignores_case (text : jsstring) :
  TableOfContents.generateId (toLowerCase text) = TableOfContents.generateId text.
Proof.
  unfold TableOfContents.generateId. f_equal. f_equal. f_equal. f_equal.
  unfold toLowerCase. induction text as [|c text IH]; [reflexivity|].
  simpl. rewrite flat_map_app, IH, lower_unit_twice. reflexivity.
Qed.

End Slugs.

(** ** Updating one node *)

Section Update.
Import Dom.
Variable f : node -> node.
Hypothesis f_children : forall m, childNodes (f m) = childNodes m.

Lemma get_update_at (p q : path) (n m : node) :
  get n q = Some m ->
  (exists r, p = q ++ r /\ get (update n p f) q = Some (update m r f))
  \/ get (update n p f) q = Some m.
Proof.
  revert n q. induction p as [|i p IH]; intros n q Hq.
  - destruct q as [|j q].
    + simpl in Hq. injection Hq as <-. left. exists []. split; reflexivity.
    + right. simpl in *. rewrite f_children. exact Hq.
  - destruct q as [|j q].
    + simpl in Hq. injection Hq as <-. left. exists (i :: p). split; reflexivity.
    + destruct n as [d | t d c a ks]; [destruct j; discriminate Hq|].
      simpl in *. destruct (Nat.eq_dec i j) as [<- | Hij].
      * destruct (nth_error ks i) as [k|] eqn:Hk; [|discriminate].
        rewrite (nth_error_list_update ks i _ k Hk).
        destruct (IH k q Hq) as [(r & -> & H) | H]; [left | right; exact H].
        exists r. split; [reflexivity | exact H].
      * right. rewrite (nth_error_list_update_other ks i j _ Hij). exact Hq.
Qed.

Lemma get_update_None (p q : path) (n : node) :
  get (update n p f) q = None <-> get n q = None.
Proof.
  revert n q. induction p as [|i p IH]; intros n q.
  - destruct q as [|j q]; simpl; [split; discriminate|].
    rewrite f_children. tauto.
  - destruct q as [|j q]; [simpl; split; discriminate|].
    destruct n as [d | t d c a ks]; [tauto|].
    simpl. destruct (Nat.eq_dec i j) as [<- | Hij].
    + destruct (nth_error ks i) as [k|] eqn:Hk.
      * rewrite (nth_error_list_update ks i _ k Hk). apply IH.
      * assert (H : nth_error (list_update ks i (fun k => update k p f)) i = None).
        { clear -Hk. revert i Hk. induction ks as [|x ks IH']; intros [|i]; simpl;
            try discriminate; try reflexivity. apply IH'. }
        rewrite H. tauto.
    + rewrite (nth_error_list_update_other ks i j _ Hij). tauto.
Qed.

Hypothesis f_text : forall m, textContent (f m) = textContent m.

Lemma textContent_update (p : path) (n : node) :
  textContent (update n p f) = textContent n.
Proof.
  revert n. induction p as [|i p IH]; intros n; [apply f_text|].
  destruct n as [d | t d c a ks]; [reflexivity|]. simpl.
  revert i. induction ks as [|k ks IHks]; intros [|i]; simpl; try reflexivity.
  - rewrite IH. reflexivity.
  - rewrite IHks. reflexivity.
Qed.

Hypothesis f_kind : forall m, kind (f m) = kind m.

Lemma kind_update (p : path) (n : node) : kind (update n p f) = kind n.
Proof. destruct p; [apply f_kind|]. destruct n; reflexivity. Qed.

Lemma nodeId_update (p : path) (n : node) :
  p <> [] -> nodeId (update n p f) = nodeId n.
Proof. destruct p; [congruence|]. destruct n; reflexivity. Qed.

End Update.

(** ** The list of the table of contents *)

Section Outline.
Import Dom TableOfContents.

Lemma setId_withId (b : node) (p : path) (i : jsstring) :
  setId b p i = update b p (withId i).
Proof. reflexivity. Qed.

Lemma withId_children i m : childNodes (withId i m) = childNodes m.
Proof. destruct m; reflexivity. Qed.
Lemma withId_text i m : textContent (withId i m) = textContent m.
Proof. destruct m; reflexivity. Qed.
Lemma withId_kind i m : kind (withId i m) = kind m.
Proof. destruct m; reflexivity. Qed.

Lemma headingId_filled (n n' : node) :
  id_filled n n' -> headingId n' = headingId n.
Proof.
  intros (_ & Ht & [Hi | [Hf Hi]]); unfold headingId.
  - rewrite Ht, Hi. reflexivity.
  - rewrite Hf, Ht, Hi. destruct (truthy (TableOfContents.generateId (textContent n)));
      reflexivity.
Qed.

Lemma id_filled_refl (n : node) : id_filled n n.
Proof. repeat split. left. reflexivity. Qed.


(** One more heading handled: what [addEntry] does to the body. *)
Lemma addEntry_body (b : node) (items : list node) (h : path) (hn : node) :
  get b h = Some hn ->
  addEntry (b, items) h
  = ((if truthy (nodeId hn) then b else update b h (withId (headingId hn))),
     (items ++ [tocItem hn])%list).
Proof.
  intros Hh. unfold addEntry. rewrite Hh. unfold headingId, tocItem, headingId.
  destruct (truthy (nodeId hn)); reflexivity.
Qed.

(** Filling in the id of the node at [h]. *)
Lemma fill_step (b : node) (h q : path) (hn n : node) :
  get b h = Some hn -> truthy (nodeId hn) = false ->
  get b q = Some n ->
  exists n', get (update b h (withId (headingId hn))) q = Some n'
             /\ kind n' = kind n /\ textContent n' = textContent n
             /\ ((q = h /\ n' = withId (headingId hn) n) \/ nodeId n' = nodeId n).
Proof.
  intros Hh Hid Hq.
  destruct (get_update_at (withId (headingId hn)) (withId_children _) h q b n Hq)
    as [(r & -> & H) | H].
  - exists (update n r (withId (headingId hn))). split; [exact H|].
    split; [apply kind_update; apply withId_kind|].
    split; [apply textContent_update; apply withId_text|].
    destruct r as [|i r].
    + left. rewrite app_nil_r. split; reflexivity.
    + right. apply nodeId_update. discriminate.
  - exists n. repeat split; [exact H|]. right. reflexivity.
Qed.

Lemma fill_keeps (b0 b : node) (h : path) (hn : node) :
  (forall q n, get b0 q = Some n -> exists n', get b q = Some n' /\ id_filled n n') ->
  get b h = Some hn -> truthy (nodeId hn) = false ->
  forall q n, get b0 q = Some n ->
    exists n', get (update b h (withId (headingId hn))) q = Some n' /\ id_filled n n'.
Proof.
  intros Inv Hh Hid q n Hq. destruct (Inv q n Hq) as (n1 & Hn1 & K1 & T1 & I1).
  destruct (fill_step b h q hn n1 Hh Hid Hn1) as (n' & Hn' & K & T & I).
  exists n'. split; [exact Hn'|]. split; [congruence|]. split; [congruence|].
  destruct I as [[-> ->] | I]; [|rewrite I; exact I1].
  rewrite Hh in Hn1. injection Hn1 as ->.
  destruct n1 as [d | t i c a ks]; [simpl; exact I1|].
  right. simpl. unfold headingId. rewrite Hid. simpl in Hid.
  rewrite T1. split; [|reflexivity].
  destruct I1 as [I1 | [I1 _]]; [|exact I1].
  simpl in I1. rewrite <- I1. exact Hid.
Qed.

Lemma ids_filled_refl (b : node) : ids_filled b b.
Proof.
  split; [|tauto]. intros q n H. exists n. split; [exact H | apply id_filled_refl].
Qed.

Lemma tocItem_filled (n n' : node) : id_filled n n' -> tocItem n' = tocItem n.
Proof.
  intros H. unfold tocItem. rewrite (headingId_filled n n' H).
  destruct H as (_ & -> & _). reflexivity.
Qed.

Lemma addEntry_filled (b0 b : node) (items : list node) (h : path) :
  ids_filled b0 b ->
  exists b', addEntry (b, items) h = (b', (items ++ tocItems b0 [h])%list)
             /\ ids_filled b0 b'.
Proof.
  intros [F N]. unfold tocItems. cbn [flat_map]. rewrite app_nil_r.
  destruct (get b0 h) as [n|] eqn:Hn.
  - destruct (F h n Hn) as (hn & Hh & Hfill).
    rewrite (addEntry_body b items h hn Hh), (tocItem_filled n hn Hfill).
    destruct (truthy (nodeId hn)) eqn:Hid.
    + exists b. split; [reflexivity | split; assumption].
    + eexists. split; [reflexivity|]. split.
      * apply (fill_keeps b0 b h hn F Hh Hid).
      * intros q. rewrite <- (N q). apply get_update_None. apply withId_children.
  - exists b. split; [|split; assumption].
    unfold addEntry. rewrite (proj2 (N h) Hn), app_nil_r. reflexivity.
Qed.

Lemma fold_addEntry_filled (b0 : node) (hs : list path) (b : node) (items : list node) :
  ids_filled b0 b ->
  exists b', fold_left addEntry hs (b, items) = (b', (items ++ tocItems b0 hs)%list)
             /\ ids_filled b0 b'.
Proof.
  revert b items. induction hs as [|h hs IH]; intros b items Hb.
  - exists b. simpl. rewrite app_nil_r. split; [reflexivity | exact Hb].
  - cbn [fold_left].
    destruct (addEntry_filled b0 b items h Hb) as (b1 & -> & Hb1).
    destruct (IH b1 (items ++ tocItems b0 [h])%list Hb1) as (b' & -> & Hb').
    exists b'. split; [|exact Hb'].
    rewrite <- app_assoc. unfold tocItems. cbn [flat_map]. rewrite app_nil_r.
    reflexivity.
Qed.

Lemma createTOCList_items (body : node) (headings : list path) :
  snd (createTOCList body headings)
  = Elem (lit "ul") [] [] [] (tocItems body headings).
Proof.
  unfold createTOCList.
  destruct (fold_addEntry_filled body headings body [] (ids_filled_refl body))
    as (b' & -> & _).
  reflexivity.
Qed.

Lemma querySelectorAllIn_resolves (b : node) (scope : path) (sel : selector) (h : path) :
  In h (querySelectorAllIn b scope sel) -> exists n, get b h = Some n.
Proof.
  unfold querySelectorAllIn. destruct (get b scope) as [sn|]; [|contradiction].
  intros H. apply filter_In in H as [_ H]. unfold matches in H.
  destruct (get b h) as [hn|]; [eauto | discriminate].
Qed.

Lemma tocItems_length (b : node) (hs : list path) :
  (forall h, In h hs -> exists n, get b h = Some n) ->
  List.length (tocItems b hs) = List.length hs.
Proof.
  unfold tocItems. induction hs as [|h hs IH]; intros H; [reflexivity|].
  cbn [flat_map]. destruct (H h (or_introl eq_refl)) as [n ->].
  simpl. f_equal. apply IH. intros h' Hin. apply H. right. exact Hin.
Qed.

(** The table of contents that [generateTOC] builds: a [nav] of class
    [table-of-contents] with the title and a list that has, in document
    order, one item for every level-2/3 heading of the content region; the
    item links to "#" followed by the heading's id (its slug when it had
    none) and shows the heading's text. *)
Theorem buildTOC_outline (body : node) (content : path) :
  snd (buildTOC body content)
  = Elem (lit "nav") [] [lit "table-of-contents"] []
         [Elem (lit "h4") [] [] [] [Text (lit "Table of Contents")];
          Elem (lit "ul") [] [] []
               (tocItems body (querySelectorAllIn body content headingSelector))]
  /\ List.length (tocItems body (querySelectorAllIn body content headingSelector))
     = List.length (querySelectorAllIn body content headingSelector).
Proof.
  split.
  - unfold buildTOC.
    pose proof (createTOCList_items body
                  (querySelectorAllIn body content headingSelector)) as H.
    destruct (createTOCList body (querySelectorAllIn body content headingSelector))
      as [b1 tocList]. cbn [snd] in *. rewrite H. reflexivity.
  - apply tocItems_length. intros h. apply querySelectorAllIn_resolves.
Qed.

Lemma truthy_false (s : jsstring) : truthy s = false -> s = [].
Proof. destruct s; [reflexivity | discriminate]. Qed.

Lemma headingId_after (n n' : node) :
  id_filled n n' -> nodeId n' = headingId n' -> nodeId n' = headingId n.
Proof. intros H E. rewrite E. apply headingId_filled. exact H. Qed.

(** Once the heading at [h] is handled its id is its [headingId]. *)
Lemma addEntry_sets_id (b0 b : node) (items : list node) (h : path)
      (t i : jsstring) (c : list jsstring) (a : list (jsstring * jsstring))
      (ks : list node) :
  ids_filled b0 b ->
  get b0 h = Some (Elem t i c a ks) ->
  exists n1, get (fst (addEntry (b, items) h)) h = Some n1
             /\ nodeId n1 = headingId (Elem t i c a ks).
Proof.
  intros [F _] Hn. destruct (F h _ Hn) as (hn & Hh & Hfill).
  rewrite (addEntry_body b items h hn Hh). cbn [fst].
  destruct (truthy (nodeId hn)) eqn:Hid.
  - exists hn. split; [exact Hh|]. apply (headingId_after _ _ Hfill).
    unfold headingId. rewrite Hid. reflexivity.
  - rewrite (get_update _ _ _ _ Hh). eexists. split; [reflexivity|].
    destruct hn as [d | t' i' c' a' ks'].
    + destruct Hfill as (K & _). discriminate K.
    + simpl. apply (headingId_filled _ _ Hfill).
Qed.

Lemma fold_addEntry_ids (b0 : node) (hs : list path) (b : node) (items : list node)
      (h : path) (t i : jsstring) (c : list jsstring) (a : list (jsstring * jsstring))
      (ks : list node) :
  ids_filled b0 b -> In h hs ->
  get b0 h = Some (Elem t i c a ks) ->
  exists n', get (fst (fold_left addEntry hs (b, items))) h = Some n'
             /\ nodeId n' = headingId (Elem t i c a ks).
Proof.
  revert b items. induction hs as [|h0 hs IH]; intros b items Hb Hin Hn;
    [contradiction Hin|].
  cbn [fold_left].
  destruct (addEntry_filled b0 b items h0 Hb) as (b1 & E1 & Hb1).
  destruct Hin as [-> | Hin].
  - destruct (addEntry_sets_id b0 b items h t i c a ks Hb Hn) as (n1 & Hn1 & Hid1).
    rewrite E1 in *. cbn [fst] in Hn1.
    destruct (fold_addEntry_filled b1 hs b1 (items ++ tocItems b0 [h])%list
                (ids_filled_refl b1)) as (b' & -> & [F' _]).
    cbn [fst]. destruct (F' h n1 Hn1) as (n' & Hn' & _ & T' & I').
    exists n'. split; [exact Hn'|].
    destruct I' as [-> | [Hf ->]]; [exact Hid1|].
    destruct (proj1 Hb1 h _ Hn) as (n1' & Hn1' & Hfill1).
    rewrite Hn1 in Hn1'. injection Hn1' as <-.
    assert (Hh : headingId n1 = headingId (Elem t i c a ks))
      by (apply headingId_filled; exact Hfill1).
    unfold headingId at 1 in Hh. rewrite Hf in Hh. exact Hh.
  - rewrite E1. apply (IH b1 _ Hb1 Hin Hn).
Qed.

(** [createTOCList] changes nothing of the page but missing ids: every
    node stays at its place with its tag, classes, attributes and text, an
    id that was there is kept, and every element among the headings ends
    with its own id or, when it had none, with the slug of its text. *)
Theorem createTOCList_ids (body : node) (headings : list path) :
  ids_filled body (fst (createTOCList body headings))
  /\ (forall h t i c a ks,
        In h headings -> get body h = Some (Elem t i c a ks) ->
        exists n', get (fst (createTOCList body headings)) h = Some n'
                   /\ nodeId n' = headingId (Elem t i c a ks)).
Proof.
  unfold createTOCList. split.
  - destruct (fold_addEntry_filled body headings body [] (ids_filled_refl body))
      as (b' & -> & H). exact H.
  - intros h t i c a ks Hin Hn.
    destruct (fold_addEntry_ids body headings body [] h t i c a ks
                (ids_filled_refl body) Hin Hn) as (n' & Hn' & Hid).
    destruct (fold_left addEntry headings (body, [])) as [b' its]. eauto.
Qed.

End Outline.

(** ** Counting elements *)

Section Counting.
Import Dom.

Lemma total_app (s : simple) (ks ks' : list node) :
  total s (ks ++ ks') = total s ks + total s ks'.
Proof. unfold total. rewrite flat_map_app, filter_app, length_app. reflexivity. Qed.

Lemma total_one (s : simple) (k : node) : total s [k] = count s k.
Proof. unfold total, count. simpl. rewrite app_nil_r. reflexivity. Qed.

Lemma total_cons (s : simple) (k : node) (ks : list node) :
  total s (k :: ks) = count s k + total s ks.
Proof. rewrite <- total_one. apply (total_app s [k] ks). Qed.

Lemma count_Elem (s : simple) (t i : jsstring) (c : list jsstring)
      (a : list (jsstring * jsstring)) (ks : list node) :
  count s (Elem t i c a ks)
  = (if matches_simple s (Elem t i c a []) then 1 else 0) + total s ks.
Proof.
  unfold count, total. cbn [elements filter].
  rewrite (matches_simple_children s t i c a ks []).
  destruct (matches_simple s (Elem t i c a [])); reflexivity.
Qed.

End Counting.

Section CountUpdate.
Import Dom.
Variable s : simple.
Variable f : node -> node.

Lemma total_list_update (ks : list node) (i : nat) (g : node -> node) (k : node) :
  nth_error ks i = Some k ->
  total s (list_update ks i g) + count s k = total s ks + count s (g k).
Proof.
  revert i. induction ks as [|x ks IH]; intros [|i]; simpl; try discriminate.
  - intros H. injection H as ->. rewrite !total_cons. lia.
  - intros H. rewrite !total_cons. specialize (IH i H). lia.
Qed.

Lemma count_update (p : path) (n m : node) :
  get n p = Some m ->
  count s (update n p f) + count s m = count s n + count s (f m).
Proof.
  revert n. induction p as [|i p IH]; intros n Hp.
  - simpl in *. injection Hp as ->. lia.
  - destruct n as [d | t d c a ks]; [destruct i; discriminate Hp|].
    simpl in Hp. destruct (nth_error ks i) as [k|] eqn:Hk; [|discriminate].
    cbn [update]. rewrite !count_Elem.
    pose proof (total_list_update ks i (fun k => update k p f) k Hk) as H1.
    specialize (IH k Hp). cbn beta in H1. lia.
Qed.
End CountUpdate.

Section CountingTables.
Import Dom TableOfContents.

Lemma count_setId (c : jsstring) (b : node) (p : path) (i : jsstring) (m : node) :
  get b p = Some m ->
  count (ByClass c) (setId b p i) = count (ByClass c) b.
Proof.
  intros H. pose proof (count_update (ByClass c) (withId i) p b m H) as E.
  assert (Hm : count (ByClass c) (withId i m) = count (ByClass c) m).
  { destruct m as [d | t i' c' a ks]; [reflexivity|]. simpl. rewrite !count_Elem.
    reflexivity. }
  rewrite setId_withId. lia.
Qed.

Lemma count_insertBefore (s : simple) (b : node) (parent : path) (x next : node)
      (pos : nat) :
  get b (parent ++ [pos]) = Some next ->
  count s (insertBefore b parent x pos) = count s b + count s x.
Proof.
  intros H. rewrite get_app in H.
  destruct (get b parent) as [[d | t i c a ks]|] eqn:Hp;
    try discriminate; [destruct pos; discriminate|].
  unfold insertBefore.
  pose proof (count_update s
                (fun n => match n with
                          | Elem t i c a ks =>
                              Elem t i c a (firstn pos ks ++ x :: skipn pos ks)
                          | Text _ => n
                          end) parent b _ Hp) as E.
  cbn beta iota in E. rewrite !count_Elem in E.
  rewrite total_app, total_cons in E.
  assert (Hks : total s ks = total s (firstn pos ks) + total s (skipn pos ks))
    by (rewrite <- total_app, firstn_skipn; reflexivity).
  lia.
Qed.

Lemma addEntry_count (c : jsstring) (st : node * list node) (h : path) :
  count (ByClass c) (fst (addEntry st h)) = count (ByClass c) (fst st).
Proof.
  destruct st as [b items]. unfold addEntry.
  destruct (get b h) as [hn|] eqn:Hh; [|reflexivity].
  destruct (truthy (nodeId hn)); [reflexivity|].
  cbn [fst]. apply (count_setId c b h _ hn Hh).
Qed.

Lemma createTOCList_count (c : jsstring) (body : node) (hs : list path) :
  count (ByClass c) (fst (createTOCList body hs)) = count (ByClass c) body.
Proof.
  unfold createTOCList.
  assert (H : forall st, count (ByClass c) (fst (fold_left addEntry hs st))
                         = count (ByClass c) (fst st)).
  { induction hs as [|h hs IH]; intros st; [reflexivity|].
    cbn [fold_left]. rewrite IH. apply addEntry_count. }
  specialize (H (body, [])).
  destruct (fold_left addEntry hs (body, [])) as [b items]. exact H.
Qed.

Lemma tocItems_total (c : jsstring) (b : node) (hs : list path) :
  total (ByClass c) (tocItems b hs) = 0.
Proof.
  unfold tocItems. induction hs as [|h hs IH]; [reflexivity|].
  cbn [flat_map]. rewrite total_app, IH.
  destruct (get b h) as [n|]; [|reflexivity].
  rewrite total_one. unfold tocItem, TableOfContents.textNodes.
  destruct (textContent n); reflexivity.
Qed.

Lemma toc_count (c : jsstring) (body : node) (content : path) :
  count (ByClass c) (snd (buildTOC body content))
  = if jseqb c (lit "table-of-contents") then 1 else 0.
Proof.
  unfold buildTOC.
  pose proof (createTOCList_items body
                (querySelectorAllIn body content headingSelector)) as H.
  destruct (createTOCList body (querySelectorAllIn body content headingSelector))
    as [b1 tocList]. cbn [snd] in *. rewrite H. unfold createTOCElement.
  rewrite count_Elem. cbn [app]. rewrite !total_cons, !count_Elem, tocItems_total.
  simpl. rewrite orb_false_r. destruct (jseqb _ _); reflexivity.
Qed.

Lemma buildTOC_fst (body : node) (content : path) :
  fst (buildTOC body content)
  = fst (createTOCList body (querySelectorAllIn body content headingSelector)).
Proof.
  unfold buildTOC.
  destruct (createTOCList body (querySelectorAllIn body content headingSelector)).
  reflexivity.
Qed.

Lemma generateTOC_cases (body : node) :
  generateTOC body = body
  \/ exists content,
       generateTOC body = fst (buildTOC body content)
       \/ exists parent pos next,
            get (fst (buildTOC body content)) (parent ++ [S pos]) = Some next
            /\ generateTOC body
               = insertBefore (fst (buildTOC body content)) parent
                              (snd (buildTOC body content)) (S pos).
Proof.
  unfold generateTOC.
  destruct (querySelector body contentSelector) as [content|]; [|left; reflexivity].
  destruct (_ <? 3); [left; reflexivity|]. right. exists content.
  destruct (buildTOC body content) as [b1 toc]. cbn [fst snd].
  destruct (insertAfter b1 content) as [target|]; [|left; reflexivity].
  destruct (unsnoc target) as [[parent pos]|]; [|left; reflexivity].
  destruct (get b1 (parent ++ [S pos])) as [next|] eqn:E; [|left; reflexivity].
  right. exists parent, pos, next. split; [exact E | reflexivity].
Qed.

(** [generateTOC] adds at most one table of contents to the page, whether
    or not the page has one already, and never removes one; the number of
    elements of any other class stays as it was. *)
Theorem generateTOC_count (c : jsstring) (body : node) :
  (jseqb c (lit "table-of-contents") = false ->
   count (ByClass c) (generateTOC body) = count (ByClass c) body)
  /\ (count tocMarker (generateTOC body) = count tocMarker body
      \/ count tocMarker (generateTOC body) = S (count tocMarker body)).
Proof.
  assert (H : forall c,
             count (ByClass c) (generateTOC body) = count (ByClass c) body
             \/ count (ByClass c) (generateTOC body)
                = count (ByClass c) body
                  + if jseqb c (lit "table-of-contents") then 1 else 0).
  { intros c0. destruct (generateTOC_cases body) as [-> | (content & [-> | H])].
    - left. reflexivity.
    - left. rewrite buildTOC_fst. apply createTOCList_count.
    - destruct H as (parent & pos & next & Hn & ->). right.
      rewrite (count_insertBefore _ _ _ _ next _ Hn), toc_count.
      rewrite buildTOC_fst, createTOCList_count. reflexivity. }
  split.
  - intros Hc. destruct (H c) as [E | E]; [exact E|]. rewrite E, Hc. lia.
  - destruct (H (lit "table-of-contents")) as [E | E]; [left; exact E|].
    right. unfold tocMarker. rewrite E. simpl. lia.
Qed.

Lemma generateTOC_count_witness :
  count (ByClass (lit "content")) (generateTOC Samples.post)
  = count (ByClass (lit "content")) Samples.post.
Proof.
  exact (proj1 (generateTOC_count (lit "content") Samples.post) eq_refl).
Defined.

End CountingTables.

(** ** The text of a decorated heading *)

Section DecoratedText.
Import Dom LinkCopier.

(** Decorating a heading that has an id and no button yet appends the
    button as its last child, so the heading's [textContent], which
    [createTOCList] reads later, ends with the link icon from then on. *)
Theorem decorate_text (b : node) (h : path) (hn : node) :
  get b h = Some hn ->
  truthy (nodeId hn) = true ->
  querySelectorIn b h copySelector = None ->
  exists hn', get (decorate b h) h = Some hn'
              /\ textContent hn' = (textContent hn ++ linkIcon)%list
              /\ childNodes hn' = (childNodes hn ++ [copyLinkButton])%list.
Proof.
  intros Hh Hid Hq. unfold decorate. rewrite Hh, Hid, Hq. simpl andb. cbn iota.
  unfold appendChild. rewrite (get_update _ _ _ _ Hh).
  destruct hn as [d | t i c a ks]; [discriminate Hid|].
  eexists. split; [reflexivity|]. split; [|reflexivity].
  simpl. rewrite flat_map_app. reflexivity.
Qed.

Lemma decorate_text_witness :
  exists hn',
    get (decorate Samples.post [1; 0; 2]) [1; 0; 2] = Some hn'
    /\ textContent hn' = (lit "Setup" ++ linkIcon)%list
    /\ childNodes hn' = [Text (lit "Setup"); copyLinkButton].
Proof.
  exact (decorate_text Samples.post [1; 0; 2] (Samples.el "h2" "setup" "Setup")
           eq_refl eq_refl eq_refl).
Defined.

End DecoratedText.

(** ** The theme through the life of the page *)

Section ThemeLife.
Import Dom ThemeManager ThemeEvents.

Lemma applyTheme_in_sync (theme : jsstring) (m : manager) :
  theme <> [] -> theme_in_sync (applyTheme theme m).
Proof.
  intros Hne. unfold theme_in_sync, applyTheme. cbn [page currentTheme].
  split; [|split; [exact Hne|]].
  - unfold storeTheme. simpl. destruct (storageWrites (page m)); reflexivity.
  - unfold storeTheme. simpl. destruct (storageWrites (page m)) eqn:Hw; simpl.
    + intros _. reflexivity.
    + rewrite Hw. discriminate.
Qed.

Lemma same_theme_in_sync (m m' : manager) :
  same_theme m m' -> theme_in_sync m -> theme_in_sync m'.
Proof.
  intros (H1 & H2 & H3 & _ & H5 & _) (S1 & S2 & S3). unfold theme_in_sync.
  rewrite H1, H2, H3, H5. repeat split; assumption.
Qed.

Lemma same_theme_flags (m m' : manager) :
  same_theme m m' ->
  storageReads (page m') = storageReads (page m)
  /\ storageWrites (page m') = storageWrites (page m).
Proof. intros (_ & _ & _ & H4 & H5 & _). split; assumption. Qed.

Lemma applyTheme_flags (theme : jsstring) (m : manager) :
  storageReads (page (applyTheme theme m)) = storageReads (page m)
  /\ storageWrites (page (applyTheme theme m)) = storageWrites (page m).
Proof.
  unfold applyTheme, storeTheme. simpl.
  destruct (storageWrites (page m)) eqn:Hw; simpl; rewrite ?Hw; split; reflexivity.
Qed.

Lemma or_else_nonempty (a : option jsstring) (b : jsstring) :
  b <> [] -> or_else a b <> [].
Proof.
  intros Hb. destruct a as [s|]; simpl; [|exact Hb].
  destruct s; simpl; [exact Hb | discriminate].
Qed.

Lemma system_theme_nonempty (matches : bool) : (if matches then dark else light) <> [].
Proof. destruct matches; discriminate. Qed.

Lemma constructor_in_sync (w : world) :
  theme_in_sync (constructor w)
  /\ storageReads (page (constructor w)) = storageReads w
  /\ storageWrites (page (constructor w)) = storageWrites w.
Proof.
  unfold constructor, init, createThemeToggle.
  match goal with |- context [addToggle ?x] =>
    pose proof (addToggle_same x) as Hs; set (m0 := x) in * end.
  split.
  - apply (same_theme_in_sync m0 _ Hs). apply applyTheme_in_sync.
    apply or_else_nonempty. unfold getSystemPreference. apply system_theme_nonempty.
  - destruct (same_theme_flags _ _ Hs) as [-> ->]. unfold m0.
    apply (applyTheme_flags _ {| currentTheme := _; page := w; retryPending := false |}).
Qed.

Lemma step_in_sync (m : manager) (e : event) :
  theme_in_sync m ->
  theme_in_sync (step m e)
  /\ storageReads (page (step m e)) = storageReads (page m)
  /\ storageWrites (page (step m e)) = storageWrites (page m).
Proof.
  intros Hm.
  assert (Happly : forall theme m1, theme <> [] ->
            theme_in_sync (updateToggleButton (applyTheme theme m1))
            /\ storageReads (page (updateToggleButton (applyTheme theme m1)))
               = storageReads (page m1)
            /\ storageWrites (page (updateToggleButton (applyTheme theme m1)))
               = storageWrites (page m1)).
  { intros theme m1 Hne.
    pose proof (updateToggleButton_same (applyTheme theme m1)) as Hs.
    split; [apply (same_theme_in_sync _ _ Hs), applyTheme_in_sync, Hne|].
    destruct (same_theme_flags _ _ Hs) as [-> ->]. apply applyTheme_flags. }
  destruct e as [| matches | | b]; cbn [step].
  - unfold toggleTheme. apply Happly.
    destruct (jseqb (currentTheme m) dark); discriminate.
  - unfold onSystemChange.
    set (m1 := {| currentTheme := currentTheme m;
                  page := setPrefersDark matches (page m);
                  retryPending := retryPending m |}).
    assert (H1 : theme_in_sync m1) by exact Hm.
    destruct (getStoredTheme (page m1)) as [s|].
    + destruct (truthy s); [repeat split; apply Hm|].
      apply (Happly _ m1 (system_theme_nonempty matches)).
    + apply (Happly _ m1 (system_theme_nonempty matches)).
  - destruct (retryPending m); [|repeat split; apply Hm].
    pose proof (addToggle_same m) as Hs.
    split; [apply (same_theme_in_sync _ _ Hs Hm)|].
    apply (same_theme_flags _ _ Hs).
  - repeat split; apply Hm.
Qed.

Lemma run_in_sync (events : list event) (m : manager) :
  theme_in_sync m ->
  theme_in_sync (run events m)
  /\ storageReads (page (run events m)) = storageReads (page m)
  /\ storageWrites (page (run events m)) = storageWrites (page m).
Proof.
  revert m. induction events as [|e events IH]; intros m Hm; [repeat split; apply Hm|].
  unfold run in *. cbn [fold_left].
  destruct (step_in_sync m e Hm) as (H1 & H2 & H3).
  destruct (IH _ H1) as (I1 & I2 & I3). rewrite I2, I3, H2, H3. repeat split; apply I1.
Qed.

(** From construction on, whatever clicks, system changes, retries and
    renderings follow, the theme attribute of the document shows the current
    theme; and storage, when it can be written, holds it. *)
Theorem theme_stays_in_sync (w : world) (events : list event) :
  colorScheme (page (run events (constructor w)))
  = Some (currentTheme (run events (constructor w)))
  /\ (storageWrites w = true ->
      blogTheme (page (run events (constructor w)))
      = Some (currentTheme (run events (constructor w)))).
Proof.
  destruct (constructor_in_sync w) as (H0 & _ & Hw).
  destruct (run_in_sync events _ H0) as ((S1 & _ & S3) & _ & Hw').
  split; [exact S1|]. intros H. apply S3. rewrite Hw', Hw. exact H.
Qed.

Lemma theme_stays_in_sync_witness :
  let m := run [Click; SystemChange true]
               (constructor (Samples.world None false Samples.post)) in
  colorScheme (page m) = Some dark /\ blogTheme (page m) = Some dark.
Proof.
  exact (conj
    (proj1 (theme_stays_in_sync (Samples.world None false Samples.post)
              [Click; SystemChange true]))
    (proj2 (theme_stays_in_sync (Samples.world None false Samples.post)
              [Click; SystemChange true]) eq_refl)).
Defined.

(** With storage that can be read and written the constructor stores the
    initial theme, so the listener for system color-scheme changes never
    changes the theme again, at no point of the manager's life. *)
Theorem system_change_never_applies (w : world) (events : list event) (matches : bool) :
  storageReads w = true -> storageWrites w = true ->
  currentTheme (onSystemChange matches (run events (constructor w)))
  = currentTheme (run events (constructor w))
  /\ colorScheme (page (onSystemChange matches (run events (constructor w))))
     = colorScheme (page (run events (constructor w))).
Proof.
  intros Hr Hw.
  destruct (constructor_in_sync w) as (H0 & Hr0 & Hw0).
  destruct (run_in_sync events _ H0) as ((_ & Hne & S3) & Hr' & Hw').
  set (m := run events (constructor w)) in *.
  assert (Hs : getStoredTheme (page m) = Some (currentTheme m)).
  { unfold getStoredTheme. rewrite Hr', Hr0, Hr. apply S3. rewrite Hw', Hw0. exact Hw. }
  rewrite (onSystemChange_skipped matches m _ Hs Hne). split; reflexivity.
Qed.

Lemma system_change_never_applies_witness :
  currentTheme
    (onSystemChange true
       (run [Click; SystemChange true; Click]
            (constructor (Samples.world None false Samples.post))))
  = light.
Proof.
  exact (proj1 (system_change_never_applies
                  (Samples.world None false Samples.post)
                  [Click; SystemChange true; Click] true eq_refl eq_refl)).
Defined.

(** When storage cannot be read, every system color-scheme change sets the
    theme to the system's, whatever the theme was before, a theme the user
    chose with the toggle included. *)
Theorem system_change_without_storage (matches : bool) (m : manager) :
  storageReads (page m) = false ->
  currentTheme (onSystemChange matches m) = (if matches then dark else light)
  /\ colorScheme (page (onSystemChange matches m))
     = Some (if matches then dark else light).
Proof.
  intros Hr. unfold onSystemChange.
  assert (H : getStoredTheme (setPrefersDark matches (page m)) = None)
    by (unfold getStoredTheme; simpl; rewrite Hr; reflexivity).
  cbn [page]. rewrite H.
  match goal with |- context [updateToggleButton ?x] =>
    destruct (updateToggleButton_same x) as (H1 & H2 & _) end.
  rewrite H1, H2. simpl. unfold storeTheme. simpl.
  destruct (storageWrites (page m)); split; reflexivity.
Qed.

Lemma system_change_without_storage_witness :
  let m := toggleTheme (constructor (MoreSamples.noStorage true Samples.post)) in
  currentTheme m = light
  /\ currentTheme (onSystemChange true m) = dark
  /\ colorScheme (page (onSystemChange true m)) = Some dark.
Proof.
  split; [reflexivity|].
  exact (system_change_without_storage true
           (toggleTheme (constructor (MoreSamples.noStorage true Samples.post)))
           eq_refl).
Defined.

Lemma getAttribute_put (name value : jsstring) (a : list (jsstring * jsstring)) :
  getAttribute name (putAttribute name value a) = Some value.
Proof.
  induction a as [|[k v] a IH]; simpl.
  - rewrite jseqb_refl. reflexivity.
  - destruct (jseqb k name) eqn:E; simpl; rewrite E; [reflexivity | exact IH].
Qed.

Lemma updateToggleButton_shows (m : manager) (tg : path) :
  getElementById (body (page m)) (lit "theme-toggle") = Some tg ->
  exists t c a,
    get (body (page (updateToggleButton m))) tg
    = Some (Elem t (lit "theme-toggle") c a [Text (toggleIcon (currentTheme m))])
    /\ getAttribute (lit "aria-label") a = Some (toggleLabel (currentTheme m)).
Proof.
  intros Htg. unfold updateToggleButton. rewrite Htg. cbn [body page setBody].
  destruct (querySelector_found _ _ tg Htg) as (tn & Htn & Hm).
  destruct tn as [d | t i c a ks]; [discriminate Hm|].
  simpl in Hm. apply jseqb_eq in Hm. subst i.
  unfold setAttribute, setTextContent.
  erewrite get_update; [|erewrite get_update; [reflexivity | exact Htn]].
  unfold toggleIcon, toggleLabel. exists t, c.
  destruct (jseqb (currentTheme m) dark);
    (eexists; split; [reflexivity | apply getAttribute_put]).
Qed.

(** After a toggle the button, when the page has one, shows the new
    theme: the sun and "Switch to light theme" when the theme is now dark,
    the moon and "Switch to dark theme" otherwise. *)
Theorem toggle_button_follows_theme (m : manager) (tg : path) :
  getElementById (body (page m)) (lit "theme-toggle") = Some tg ->
  exists t c a,
    get (body (page (toggleTheme m))) tg
    = Some (Elem t (lit "theme-toggle") c a
                 [Text (toggleIcon (currentTheme (toggleTheme m)))])
    /\ getAttribute (lit "aria-label") a
       = Some (toggleLabel (currentTheme (toggleTheme m)))
    /\ currentTheme (toggleTheme m)
       = if jseqb (currentTheme m) dark then light else dark.
Proof.
  intros Htg. destruct (toggleTheme_scheme m) as [Hcur _]. rewrite Hcur.
  unfold toggleTheme.
  set (new := if jseqb (currentTheme m) dark then light else dark).
  assert (Hb : getElementById (body (page (applyTheme new m))) (lit "theme-toggle")
               = Some tg).
  { unfold applyTheme, storeTheme. simpl.
    destruct (storageWrites (page m)); exact Htg. }
  destruct (updateToggleButton_shows _ tg Hb) as (t & c & a & H1 & H2).
  exists t, c, a. repeat split; assumption.
Qed.

Lemma toggle_button_follows_theme_witness :
  let m := constructor (Samples.world None false Samples.post) in
  exists t c a,
    get (body (page (toggleTheme m))) [0; 0]
    = Some (Elem t (lit "theme-toggle") c a [Text sunIcon])
    /\ getAttribute (lit "aria-label") a = Some (lit "Switch to light theme")
    /\ currentTheme (toggleTheme m) = dark.
Proof.
  exact (toggle_button_follows_theme
           (constructor (Samples.world None false Samples.post)) [0; 0] eq_refl).
Defined.

(** Without a navigation bar [addToggle] changes nothing and schedules
    itself again; with one it stops polling and leaves the page with a
    toggle. *)
Theorem addToggle_waits_for_nav (m : manager) :
  (querySelector (body (page m)) [Simple (ByClass (lit "app-nav"))] = None ->
   addToggle m = {| currentTheme := currentTheme m; page := page m;
                    retryPending := true |})
  /\ (querySelector (body (page m)) [Simple (ByClass (lit "app-nav"))] <> None ->
      retryPending (addToggle m) = false
      /\ getElementById (body (page (addToggle m))) (lit "theme-toggle") <> None).
Proof.
  split.
  - intros H. unfold addToggle. rewrite H. reflexivity.
  - intros H. unfold addToggle.
    destruct (querySelector (body (page m)) [Simple (ByClass (lit "app-nav"))])
      as [nav|] eqn:Hnav; [clear H | contradiction H; reflexivity].
    destruct (getElementById (body (page m)) (lit "theme-toggle")) as [tg0|] eqn:Htg0.
    { cbn [retryPending page]. rewrite Htg0. split; [reflexivity | discriminate]. }
    set (b := body (page m)) in *.
    destruct (querySelector_found b _ nav Hnav) as (nn & Hnn & Hnm).
    destruct nn as [d | t i c a ks]; [discriminate Hnm|].
    set (b1 := appendChild b nav toggleButton).
    assert (Hnew : get b1 (nav ++ [List.length ks]) = Some toggleButton).
    { unfold b1, appendChild. rewrite (get_update_below _ _ _ _ _ Hnn). simpl.
      rewrite nth_error_app2 by apply Nat.le_refl. rewrite Nat.sub_diag. reflexivity. }
    destruct (getElementById b1 (lit "theme-toggle")) as [tg|] eqn:Htg.
    2: { exfalso.
         exact (querySelector_finds b1 (ById (lit "theme-toggle")) _ _ Hnew eq_refl Htg). }
    set (x := {| currentTheme := currentTheme m;
                 page := setBody b1 (page m); retryPending := false |}).
    assert (Hx : getElementById (body (page x)) (lit "theme-toggle") = Some tg)
      by exact Htg.
    destruct (updateToggleButton_shows x tg Hx) as (t' & c' & a' & Hget & _).
    split.
    + unfold updateToggleButton. rewrite Hx. reflexivity.
    + apply (querySelector_finds _ (ById (lit "theme-toggle")) tg _ Hget).
      reflexivity.
Qed.

Lemma addToggle_waits_for_nav_witness :
  let m := {| currentTheme := dark;
              page := Samples.world None true Samples.post;
              retryPending := true |} in
  retryPending (addToggle m) = false
  /\ getElementById (body (page (addToggle m))) (lit "theme-toggle") <> None.
Proof.
  apply (proj2 (addToggle_waits_for_nav
                  {| currentTheme := dark;
                     page := Samples.world None true Samples.post;
                     retryPending := true |})).
  discriminate.
Defined.

End ThemeLife.

(** ** Copy buttons and their feedback *)

Section CopyMore.
Import Dom LinkCopier CopyTimers.

(** After [addCopyLinks] every level-2/3 heading of the content region
    that has an id has a copy button below it. *)
Theorem addCopyLinks_buttons (b : node) (h : path) (hn : node) :
  matches b headingSelector h = true ->
  get b h = Some hn ->
  truthy (nodeId hn) = true ->
  querySelectorIn (addCopyLinks b) h copySelector <> None.
Proof.
  intros Hm Hh Hid. unfold addCopyLinks.
  apply (fold_puts_buttons _ b h hn); [|exact Hh | exact Hid].
  apply filter_In. split; [|exact Hm].
  destruct h as [|i h]; [left; reflexivity|]. right.
  apply (In_descendants (i :: h) b hn); [discriminate | exact Hh|].
  destruct hn; [discriminate Hid | discriminate].
Qed.

Lemma addCopyLinks_buttons_witness :
  matches Samples.post headingSelector [1; 0; 2] = true
  /\ querySelectorIn (addCopyLinks Samples.post) [1; 0; 2] copySelector <> None.
Proof.
  split; [reflexivity|].
  exact (addCopyLinks_buttons Samples.post [1; 0; 2]
           (Samples.el "h2" "setup" "Setup") eq_refl eq_refl eq_refl).
Defined.

(** [addCopyLinks] removes and relabels nothing: every node of the page
    is still at its place with its tag, id and classes, and every element
    of the result is such a node or is labelled as a copy button. *)
Theorem addCopyLinks_only_adds_buttons (b : node) :
  (forall q n, get b q = Some n ->
     exists n', get (addCopyLinks b) q = Some n' /\ label n' = label n)
  /\ (forall q n', get (addCopyLinks b) q = Some n' ->
        (exists n, get b q = Some n /\ label n = label n')
        \/ label n' = label copyLinkButton
        \/ label n' = None).
Proof.
  destruct (fold_decorated (querySelectorAll b headingSelector) b) as [F B].
  fold (addCopyLinks b) in F, B. split; [exact F|].
  intros q n' H. destruct (B q n' H) as [Hl | (r & n0 & Hr & L)]; [left; exact Hl|].
  right. destruct (button_nodes _ _ Hr) as [-> | ->]; [left | right];
    symmetry; exact L.
Qed.

Lemma showCopyFeedback_button (button : path) (icon : jsstring) (pg : page)
      (t i : jsstring) (c : list jsstring) (a : list (jsstring * jsstring))
      (ks : list node) :
  get (body pg) button = Some (Elem t i c a ks) ->
  get (body (showCopyFeedback button icon pg)) button
  = Some (Elem t i c a (match icon with [] => [] | _ => [Text icon] end))
  /\ innerHTML (body (showCopyFeedback button icon pg)) button = icon
  /\ timers (showCopyFeedback button icon pg)
     = (timers pg ++ [(button, innerHTML (body pg) button)])%list
  /\ clipboard (showCopyFeedback button icon pg) = clipboard pg
  /\ calls (showCopyFeedback button icon pg) = calls pg.
Proof.
  intros H. unfold showCopyFeedback. cbn [body timers clipboard calls].
  split; [|split; [apply (innerHTML_set _ _ _ _ _ _ _ _ H) | repeat split]].
  unfold setTextContent. rewrite (get_update _ _ _ _ H). reflexivity.
Qed.

Lemma restoreIcon_button (button : path) (icon : jsstring) (pg : page)
      (t i : jsstring) (c : list jsstring) (a : list (jsstring * jsstring))
      (ks : list node) :
  get (body pg) button = Some (Elem t i c a ks) ->
  get (body (restoreIcon button icon pg)) button
  = Some (Elem t i c a (match icon with [] => [] | _ => [Text icon] end))
  /\ innerHTML (body (restoreIcon button icon pg)) button = icon
  /\ timers (restoreIcon button icon pg) = tl (timers pg).
Proof.
  intros H. unfold restoreIcon. cbn [body timers].
  split; [|split; [apply (innerHTML_set _ _ _ _ _ _ _ _ H) | reflexivity]].
  unfold setTextContent. rewrite (get_update _ _ _ _ H). reflexivity.
Qed.

Lemma copyLink_done (env : platform) (headingId : jsstring) (button : path)
      (pg : page) :
  writeText env = true \/ (exists ok, execCommand env = Returned ok) ->
  exists pg1, copyLink env headingId button pg = showCopyFeedback button checkIcon pg1
              /\ body pg1 = body pg /\ timers pg1 = timers pg.
Proof.
  intros H. unfold copyLink. destruct (writeText env) eqn:Hw.
  - eexists. split; [reflexivity|]. split; reflexivity.
  - destruct H as [H | [ok Hok]]; [discriminate|].
    unfold fallbackCopy. rewrite Hok. cbn [body calls clipboard timers].
    eexists. split; [reflexivity|]. cbn [body timers].
    split; [apply textarea_removed | reflexivity].
Qed.

(** When the copy completes (the clipboard write succeeds or the fallback
    returns) the button shows the success icon, and when the timer fires
    it shows again what it showed before the click. *)
Theorem copy_feedback_reverts (env : platform) (headingId : jsstring)
        (button : path) (pg : page)
        (t i : jsstring) (c : list jsstring) (a : list (jsstring * jsstring))
        (ks : list node) :
  writeText env = true \/ (exists ok, execCommand env = Returned ok) ->
  get (body pg) button = Some (Elem t i c a ks) ->
  timers pg = [] ->
  innerHTML (body (copyLink env headingId button pg)) button = checkIcon
  /\ innerHTML (body (fireTimer (copyLink env headingId button pg))) button
     = innerHTML (body pg) button
  /\ timers (fireTimer (copyLink env headingId button pg)) = [].
Proof.
  intros Hdone Hb Ht.
  destruct (copyLink_done env headingId button pg Hdone) as (pg1 & -> & Hb1 & Ht1).
  rewrite <- Hb1 in Hb.
  destruct (showCopyFeedback_button button checkIcon pg1 _ _ _ _ _ Hb)
    as (G & I & T & _).
  split; [exact I|]. unfold fireTimer. rewrite T, Ht1, Ht. cbn [app].
  destruct (restoreIcon_button button (innerHTML (body pg1) button) _ _ _ _ _ _ G)
    as (_ & I' & T').
  rewrite I', T', T, Ht1, Ht, Hb1. split; reflexivity.
Qed.

(** A second click while the success icon is showing: the first timer
    puts the old icon back, the second one puts the success icon back, and
    with no timer left the button keeps the success icon. *)
Theorem second_click_keeps_check_icon (env : platform) (headingId : jsstring)
        (button : path) (pg : page)
        (t i : jsstring) (c : list jsstring) (a : list (jsstring * jsstring))
        (ks : list node) :
  writeText env = true \/ (exists ok, execCommand env = Returned ok) ->
  get (body pg) button = Some (Elem t i c a ks) ->
  timers pg = [] ->
  let twice := copyLink env headingId button (copyLink env headingId button pg) in
  innerHTML (body (fireTimer twice)) button = innerHTML (body pg) button
  /\ innerHTML (body (fireTimer (fireTimer twice))) button = checkIcon
  /\ timers (fireTimer (fireTimer twice)) = [].
Proof.
  intros Hdone Hb Ht twice. subst twice.
  destruct (copyLink_done env headingId button pg Hdone) as (pg1 & -> & Hb1 & Ht1).
  rewrite <- Hb1 in Hb.
  destruct (showCopyFeedback_button button checkIcon pg1 _ _ _ _ _ Hb)
    as (G1 & I1 & T1 & _).
  set (p1 := showCopyFeedback button checkIcon pg1) in *.
  destruct (copyLink_done env headingId button p1 Hdone) as (pg2 & -> & Hb2 & Ht2).
  rewrite <- Hb2 in G1, I1.
  destruct (showCopyFeedback_button button checkIcon pg2 _ _ _ _ _ G1)
    as (G2 & I2 & T2 & _).
  set (p2 := showCopyFeedback button checkIcon pg2) in *.
  rewrite Ht2, T1, Ht1, Ht, I1 in T2. cbn [app] in T2.
  assert (F1 : fireTimer p2 = restoreIcon button (innerHTML (body pg1) button) p2)
    by (unfold fireTimer; rewrite T2; reflexivity).
  rewrite F1.
  destruct (restoreIcon_button button (innerHTML (body pg1) button) p2 _ _ _ _ _ G2)
    as (G3 & I3 & T3).
  set (p3 := restoreIcon button (innerHTML (body pg1) button) p2) in *.
  rewrite T2 in T3. cbn [tl] in T3.
  assert (F2 : fireTimer p3 = restoreIcon button checkIcon p3)
    by (unfold fireTimer; rewrite T3; reflexivity).
  rewrite F2.
  destruct (restoreIcon_button button checkIcon p3 _ _ _ _ _ G3) as (_ & I4 & T4).
  rewrite I3, I4, T4, T3, Hb1. repeat split.
Qed.
Lemma copy_feedback_reverts_witness :
  let pg := Samples.copyPage (addCopyLinks Samples.post) in
  let env := Samples.noClipboard (Returned false) in
  innerHTML (body (copyLink env (lit "setup") Samples.setupButton pg))
            Samples.setupButton = checkIcon
  /\ innerHTML (body (fireTimer (copyLink env (lit "setup") Samples.setupButton pg)))
               Samples.setupButton = linkIcon
  /\ timers (fireTimer (copyLink env (lit "setup") Samples.setupButton pg)) = [].
Proof.
  exact (copy_feedback_reverts (Samples.noClipboard (Returned false)) (lit "setup")
           Samples.setupButton (Samples.copyPage (addCopyLinks Samples.post))
           (lit "button") [] [lit "copy-link"]
           [(lit "aria-label", lit "Copy link to this section")]
           [Text linkIcon]
           (or_intror (ex_intro _ false eq_refl)) eq_refl eq_refl).
Defined.

Lemma second_click_keeps_check_icon_witness :
  let pg := Samples.copyPage (addCopyLinks Samples.post) in
  let env := Samples.noClipboard (Returned true) in
  let twice := copyLink env (lit "setup") Samples.setupButton
                 (copyLink env (lit "setup") Samples.setupButton pg) in
  innerHTML (body (fireTimer twice)) Samples.setupButton = linkIcon
  /\ innerHTML (body (fireTimer (fireTimer twice))) Samples.setupButton = checkIcon
  /\ timers (fireTimer (fireTimer twice)) = [].
Proof.
  exact (second_click_keeps_check_icon (Samples.noClipboard (Returned true))
           (lit "setup") Samples.setupButton
           (Samples.copyPage (addCopyLinks Samples.post))
           (lit "button") [] [lit "copy-link"]
           [(lit "aria-label", lit "Copy link to this section")]
           [Text linkIcon]
           (or_intror (ex_intro _ true eq_refl)) eq_refl eq_refl).
Defined.

End CopyMore.

(** ** Clicks inside anchors *)

Section ScrollMore.
Import Dom SmoothScroll.

Lemma closest_self (root : node) (l : path) (sel : selector) :
  matches root sel l = true -> closest root l sel = Some l.
Proof.
  intros H. unfold closest. rewrite seq_S, rev_app_distr. simpl.
  rewrite firstn_all, H. reflexivity.
Qed.

(** A click on an element inside an in-page anchor is handled as a click
    on the anchor itself: the anchor found is the target or one of its
    ancestors, and the handler does what it does for a click on it. *)
Theorem click_inside_anchor (querySelector : jsstring -> lookup) (pageYOffset : float)
        (body : node) (target link : path) :
  closest body target anchorSelector = Some link ->
  (exists k, link = firstn k target)
  /\ closest body link anchorSelector = Some link
  /\ onClick querySelector pageYOffset body target
     = onClick querySelector pageYOffset body link.
Proof.
  intros H. assert (Hc : closest body link anchorSelector = Some link).
  { apply closest_self. unfold closest in H. apply find_some in H. apply H. }
  split; [|split; [exact Hc|]].
  - unfold closest in H. apply find_some in H as [H _].
    apply in_map_iff in H as (k & <- & _). exists k. reflexivity.
  - unfold onClick. rewrite H, Hc. reflexivity.
Qed.

Lemma click_inside_anchor_witness :
  onClick (Samples.lookupId Samples.post 120%float) 300%float
          MoreSamples.nestedLink [1; 0; 0; 0; 0]
  = onClick (Samples.lookupId Samples.post 120%float) 300%float
            MoreSamples.nestedLink [1; 0; 0; 0].
Proof.
  exact (proj2 (proj2 (click_inside_anchor
                         (Samples.lookupId Samples.post 120%float) 300%float
                         MoreSamples.nestedLink [1; 0; 0; 0; 0] [1; 0; 0; 0]
                         eq_refl))).
Defined.

End ScrollMore.

(** ** Frames, the search box and the console *)

Section LoopMore.
Import Dom ReadingProgress ScrollLoop.

Lemma step_one_frame (l : loop) (e : event) :
  pending l <= 1 /\ (pending l = 1 -> ticking l = true) ->
  pending (step l e) <= 1 /\ (pending (step l e) = 1 -> ticking (step l e) = true).
Proof.
  intros [H1 H2]. destruct e as [|body v]; cbn [step].
  - unfold onScroll. destruct (ticking l) eqn:Ht; cbn [pending ticking].
    + split; [exact H1 | reflexivity].
    + split; [|reflexivity]. destruct (pending l) as [|[|k]]; [lia | | lia].
      specialize (H2 eq_refl). discriminate.
  - destruct (pending l) as [|k] eqn:Hp; [split; [lia | rewrite Hp; discriminate]|].
    destruct (updateProgress body v (ticking l)) as [w t]. cbn [pending ticking].
    split; [lia | intros ->; lia].
Qed.

(** However scroll events and frames follow each other, at most one frame
    is requested and not yet run, and while one is, [ticking] is set. *)
Theorem at_most_one_frame_pending (events : list event) :
  pending (run events start) <= 1
  /\ (pending (run events start) = 1 -> ticking (run events start) = true).
Proof.
  unfold run.
  assert (H : forall l, (pending l <= 1 /\ (pending l = 1 -> ticking l = true)) ->
                        pending (fold_left step events l) <= 1
                        /\ (pending (fold_left step events l) = 1 ->
                            ticking (fold_left step events l) = true)).
  { induction events as [|e events IH]; intros l Hl; [exact Hl|].
    cbn [fold_left]. apply IH. apply step_one_frame. exact Hl. }
  apply H. split; [apply Nat.le_0_l | discriminate].
Qed.

(** A frame that finds no progress bar returns before it clears
    [ticking]: no scroll event requests a frame after that, and no width is
    ever written, even when a bar is there later. *)
Theorem frame_without_bar_stops_updates
        (body : node) (v : viewport) (events : list event) :
  getElementById body (lit "reading-progress") = None ->
  run (Scroll :: Frame body v :: events) start
  = {| ticking := true; pending := 0; width := None |}.
Proof.
  intros Hbar. unfold run. cbn [fold_left].
  assert (H0 : step (step start Scroll) (Frame body v)
               = {| ticking := true; pending := 0; width := None |}).
  { unfold start. cbn [step onScroll ticking pending width].
    unfold updateProgress. rewrite Hbar. reflexivity. }
  rewrite H0. induction events as [|e events IH]; [reflexivity|].
  cbn [fold_left]. destruct e; exact IH.
Qed.

Lemma frame_without_bar_stops_updates_witness :
  run [Scroll; Frame Samples.post Samples.zeroHeight; Scroll;
       Frame (createProgressBar Samples.post) Samples.zeroHeight] start
  = {| ticking := true; pending := 0; width := None |}.
Proof.
  exact (frame_without_bar_stops_updates Samples.post Samples.zeroHeight
           [Scroll; Frame (createProgressBar Samples.post) Samples.zeroHeight]
           eq_refl).
Defined.

Lemma updateProgress_upper_clamp_witness :
  PrimFloat.is_nan 50%float = true \/ PrimFloat.leb 50%float 100%float = true.
Proof.
  exact (updateProgress_upper_clamp (createProgressBar Samples.post)
           {| pageYOffset := 500%float; scrollHeight := 1600%float;
              innerHeight := 600%float |}
           true 50%float eq_refl).
Defined.
End LoopMore.

Section SearchMore.
Import Dom SearchEnhancer.



End SearchMore.

Section AnalyticsMore.
Import Analytics.

Lemma existsb_jseqb_In (path : jsstring) (l : list jsstring) :
  existsb (jseqb path) l = true <-> In path l.
Proof.
  rewrite existsb_exists. split.
  - intros (x & Hin & Hx). apply jseqb_eq in Hx. subst x. exact Hin.
  - intros H. exists path. split; [exact H | apply jseqb_refl].
Qed.

Lemma step_tidy (a : analytics) (e : event) : tidy a -> tidy (step a e).
Proof.
  intros (Hn & Hv & Hs). destruct e as [p | [|]]; cbn [step].
  - unfold trackPageView. destruct (existsb (jseqb p) (pageViews a)) eqn:E;
      [repeat split; assumption|].
    unfold tidy, views, searches in *. cbn [pageViews searchCount console].
    rewrite flat_map_app, filter_app, length_app, Hv, Hs. cbn.
    rewrite Nat.add_0_r. repeat split.
    apply NoDup_app; [exact Hn | repeat constructor; intros [] | ].
    intros x Hx [<- | []]. apply existsb_jseqb_In in Hx. congruence.
  - unfold onInput, tidy, views, searches in *. cbn [pageViews searchCount console].
    destruct (searchCount a) as [|k]; cbn in *.
    + rewrite flat_map_app, filter_app, length_app, Hs, Hv. cbn.
      rewrite app_nil_r. repeat split; assumption.
    + repeat split; assumption.
  - unfold onInput. repeat split; assumption.
Qed.

Lemma step_pageViews (a : analytics) (e : event) (q : jsstring) :
  In q (pageViews (step a e)) <-> In q (pageViews a) \/ e = Visit q.
Proof.
  destruct e as [p | [|]]; cbn [step].
  - unfold trackPageView. destruct (existsb (jseqb p) (pageViews a)) eqn:E.
    + split; [tauto|]. intros [H | H]; [exact H|]. injection H as ->.
      apply existsb_jseqb_In. exact E.
    + cbn [pageViews]. rewrite in_app_iff. simpl. split.
      * intros [H | [<- | []]]; [left; exact H | right; reflexivity].
      * intros [H | H]; [left; exact H | right; left; congruence].
  - unfold onInput. cbn [pageViews]. split; [tauto | intros [H | H]; [exact H | discriminate]].
  - unfold onInput. split; [tauto | intros [H | H]; [exact H | discriminate]].
Qed.

Lemma step_searchCount (a : analytics) (e : event) :
  searchCount (step a e) = searchCount a + (if typed_in_search e then 1 else 0).
Proof.
  destruct e as [p | [|]]; cbn [step typed_in_search].
  - unfold trackPageView. destruct (existsb _ _); cbn [searchCount]; lia.
  - unfold onInput. cbn [searchCount]. lia.
  - unfold onInput. lia.
Qed.

Lemma run_tidy (events : list event) (a : analytics) :
  tidy a ->
  tidy (run events a)
  /\ (forall q, In q (pageViews (run events a))
                <-> In q (pageViews a) \/ In (Visit q) events)
  /\ (searchCount (run events a) = 0
      <-> searchCount a = 0 /\ ~ In (Input true) events).
Proof.
  revert a. unfold run. induction events as [|e events IH]; intros a Ha.
  - split; [exact Ha|]. split; [intros q; simpl; tauto | simpl; tauto].
  - cbn [fold_left]. destruct (IH _ (step_tidy a e Ha)) as (H1 & H2 & H3).
    split; [exact H1|]. split.
    + intros q. rewrite H2, step_pageViews. simpl. intuition congruence.
    + rewrite H3, step_searchCount.
      destruct e as [p | [|]]; simpl; split; intros [A B];
        try (exfalso; lia); try (exfalso; apply B; left; reflexivity);
        (split; [lia|]); intros H; apply B;
        try (right; exact H); destruct H as [H | H]; (discriminate || exact H).
Qed.

(** However often [trackPageView] runs, and whatever is typed between,
    the console lists every path that was visited, and each one once. *)
Theorem page_views_logged_once (events : list event) :
  NoDup (views (run events start))
  /\ (forall q, In q (views (run events start)) <-> In (Visit q) events).
Proof.
  assert (H0 : tidy start) by (repeat split; constructor).
  destruct (run_tidy events start H0) as ((Hn & Hv & _) & H2 & _).
  rewrite Hv. split; [exact Hn|]. intros q. rewrite H2. simpl. tauto.
Qed.

(** The console says that the user started searching once if a keystroke
    in the search box ever came, and never otherwise. *)
Theorem search_logged_once (events : list event) :
  searches (run events start) = (if existsb typed_in_search events then 1 else 0).
Proof.
  assert (H0 : tidy start) by (repeat split; constructor).
  destruct (run_tidy events start H0) as ((_ & _ & Hs) & _ & H3).
  rewrite Hs.
  destruct (existsb _ events) eqn:E.
  - apply existsb_exists in E as (e & Hin & He).
    destruct e as [p | [|]]; try discriminate.
    destruct (Nat.eqb_spec (searchCount (run events start)) 0) as [Hz | _]; [|reflexivity].
    apply H3 in Hz as [_ Hn]. contradiction.
  - destruct (Nat.eqb_spec (searchCount (run events start)) 0) as [_ | Hz]; [reflexivity|].
    exfalso. apply Hz. apply H3. split; [reflexivity|].
    intros Hin. assert (Ht : existsb typed_in_search events = true)
      by (apply existsb_exists; exists (Input true); split; [exact Hin | reflexivity]).
    congruence.
Qed.
End AnalyticsMore.

Section SearchPlaceholder.
Import Dom SearchEnhancer.

Lemma label_update_root (f : node -> node) (p : path) (n : node) :
  (forall m, label (f m) = label m) -> label (update n p f) = label n.
Proof. intros Hf. destruct p; [apply Hf|]. destruct n; reflexivity. Qed.

(** When the page has a search input, [enhanceSearch] gives that input
    the placeholder and registers one more listener for it; the focus and
    every other tag, id, class and text of the page stay as they were. *)
Theorem enhanceSearch_placeholder (pg : page) (searchInput : path) :
  findSearchInput (body pg) = Some searchInput ->
  (exists t i c a ks,
     get (body (enhanceSearch pg)) searchInput = Some (Elem t i c a ks)
     /\ t = lit "input"
     /\ getAttribute (lit "placeholder") a = Some placeholder)
  /\ listeners (enhanceSearch pg) = (listeners pg ++ [searchInput])%list
  /\ activeElement (enhanceSearch pg) = activeElement pg
  /\ (forall q n, get (body pg) q = Some n ->
        exists n', get (body (enhanceSearch pg)) q = Some n'
                   /\ label n' = label n /\ textContent n' = textContent n).
Proof.
  intros Hf. unfold enhanceSearch. rewrite Hf. cbn [body listeners activeElement].
  unfold findSearchInput in Hf. apply find_some in Hf as [_ Hs].
  unfold isSearchInput in Hs.
  destruct (get (body pg) searchInput) as [[d | t i c a ks]|] eqn:Hget;
    try discriminate.
  apply andb_true_iff in Hs as [Hs _]. apply andb_true_iff in Hs as [Ht _].
  apply jseqb_eq in Ht.
  change (setAttribute (body pg) searchInput (lit "placeholder") placeholder)
    with (update (body pg) searchInput (withAttribute (lit "placeholder") placeholder)).
  assert (Hc : forall m, childNodes (withAttribute (lit "placeholder") placeholder m)
                         = childNodes m) by (intros [|]; reflexivity).
  assert (Hl : forall m, label (withAttribute (lit "placeholder") placeholder m)
                         = label m) by (intros [|]; reflexivity).
  assert (Hx : forall m, textContent (withAttribute (lit "placeholder") placeholder m)
                         = textContent m) by (intros [|]; reflexivity).
  split; [|split; [reflexivity | split; [reflexivity|]]].
  - rewrite (get_update _ _ _ _ Hget). exists t, i, c. eexists. exists ks.
    split; [reflexivity|]. split; [exact Ht | apply getAttribute_put].
  - intros q n Hq.
    destruct (get_update_at _ Hc searchInput q (body pg) n Hq) as [(r & -> & H) | H].
    + eexists. split; [exact H|]. split.
      * apply label_update_root. exact Hl.
      * apply textContent_update. exact Hx.
    + exists n. repeat split. exact H.
Qed.
Lemma enhanceSearch_placeholder_witness :
  listeners (enhanceSearch MoreSamples.searchPage) = [[0; 0; 0]]
  /\ activeElement (enhanceSearch MoreSamples.searchPage) = None.
Proof.
  destruct (enhanceSearch_placeholder MoreSamples.searchPage [0; 0; 0] eq_refl)
    as (_ & Hl & Ha & _).
  exact (conj Hl Ha).
Defined.

End SearchPlaceholder.
